(** * WhatsApp automation bot: session registry, dispatcher and HTTP facade

    A shallow embedding of [whatsapp_bot.py] (class [WhatsAppBot]) and
    [app.py] (the registry [bot_instances] and the Flask routes), with the
    properties of the specification stated over it.

    Conventions.
    - Python values that are inspected dynamically (truthiness, attribute
      lookup) are values of [pyval]; a result or response [dict] is an
      association list in insertion order. The registry [bot_instances] is
      a finite map from device ids to object references.
    - A Python [str] is a [string]; its characters are read as code points
      below 256.
    - A reading of [time.time()] is a [Z], in seconds; the functions that
      read the clock take the reading as an argument.
    - Everything the browser, the driver process and the operating system
      decide is supplied by an environment record; the functions are total
      and executable for every environment. Creating a directory always
      works.
    - Session objects live in an object store and keep their address. The
      finalizer [__del__] runs where the registry replaces an entry and
      nothing else refers to the replaced object. Where an entry is removed
      ([delete_session], the sweep), [close()] has run just before; the
      finalizer's second [close()] finds the driver handle cleared and does
      nothing, unless the first [quit] raised, and is not modelled.
    - A request body is the value [request.get_json(silent=True)] returns:
      any JSON value, or [None]. *)

From Stdlib Require Import ZArith Ascii String.
From stdpp Require Import base gmap sets list strings.

Local Open Scope Z_scope.

(** ** Python values *)

Module Py.

(** A [float]: a finite binary fraction [mantissa * 2 ^ exponent], or one
    of the values [json.loads] makes of [Infinity], [-Infinity] and [NaN]. *)
Inductive pyfloat : Type :=
  | Finite (mantissa exponent : Z)
  | Infinity (negative : bool)
  | NaN.

Unset Elimination Schemes.
Inductive pyval : Type :=
  | PyNone
  | PyBool (b : bool)
  | PyInt (n : Z)
  | PyFloat (x : pyfloat)
  | PyStr (s : string)
  | PyPath (p : string)
  | PyList (elements : list pyval)
  | PyDict (items : list (string * pyval)).
Set Elimination Schemes.

Definition str_nonempty (s : string) : bool :=
  match s with
  | EmptyString => false
  | String _ _ => true
  end.

(** Truth value testing: [None], [False], zero, the empty string, the
    empty list and the empty dict are false; a [pathlib.Path] defines
    neither [__bool__] nor [__len__] and is always true. *)
Definition truthy (v : pyval) : bool :=
  match v with
  | PyNone => false
  | PyBool b => b
  | PyInt n => negb (n =? 0)
  | PyFloat (Finite mantissa _) => negb (mantissa =? 0)
  | PyFloat _ => true
  | PyStr s => str_nonempty s
  | PyPath _ => true
  | PyList elements =>
      match elements with
      | [] => false
      | _ :: _ => true
      end
  | PyDict items =>
      match items with
      | [] => false
      | _ :: _ => true
      end
  end.

Fixpoint assoc (k : string) (items : list (string * pyval)) : option pyval :=
  match items with
  | [] => None
  | (k', v) :: rest => if String.eqb k k' then Some v else assoc k rest
  end.

(** [d.get(k)]: the value, or [None] when the key is missing. *)
Definition dict_get (k : string) (items : list (string * pyval)) : pyval :=
  default PyNone (assoc k items).

Definition of_option_str (o : option string) : pyval :=
  match o with
  | Some s => PyStr s
  | None => PyNone
  end.

(** [type(v).__name__], as the interpreter's error messages print it. *)
Definition type_name (v : pyval) : string :=
  match v with
  | PyNone => "NoneType"
  | PyBool _ => "bool"
  | PyInt _ => "int"
  | PyFloat _ => "float"
  | PyStr _ => "str"
  | PyPath _ => "PosixPath"
  | PyList _ => "list"
  | PyDict _ => "dict"
  end.

(** The text of the [AttributeError] for [v.attr]. *)
Definition no_attribute (v : pyval) (attr : string) : string :=
  "'" +:+ type_name v +:+ "' object has no attribute '" +:+ attr +:+ "'".

End Py.

(** ** Phone number normalisation ([WhatsAppBot.send_message], lines 288-290) *)

Module Phone.

Definition code (c : ascii) : N := Ascii.N_of_ascii c.

(** [str.isdigit] on code points below 256: the decimal digits and the
    superscript digits U+00B2, U+00B3 and U+00B9. *)
Definition isdigit (c : ascii) : bool :=
  ((48 <=? code c) && (code c <=? 57))%N
  || (code c =? 178)%N || (code c =? 179)%N || (code c =? 185)%N.

(** [''.join(filter(pred, s))] *)
Fixpoint join_filter (pred : ascii -> bool) (s : string) : string :=
  match s with
  | EmptyString => EmptyString
  | String c rest =>
      if pred c then String c (join_filter pred rest) else join_filter pred rest
  end.

Definition startswith (s pre : string) : bool := String.prefix pre s.

Definition normalize_phone (phone_number : string) : string :=
  let clean_phone := join_filter isdigit phone_number in
  if negb (startswith clean_phone "91") && (String.length clean_phone =? 10)%nat
  then "91" +:+ clean_phone
  else clean_phone.

Fixpoint all_chars (pred : ascii -> bool) (s : string) : bool :=
  match s with
  | EmptyString => true
  | String c rest => pred c && all_chars pred rest
  end.

(** Lines 289-290 alone, on the digits that line 288 has collected. *)
Definition with_country_code (clean_phone : string) : string :=
  if negb (startswith clean_phone "91") && (String.length clean_phone =? 10)%nat
  then "91" +:+ clean_phone
  else clean_phone.

(** [str.isdigit] on a whole string: at least one character, and all of
    them digits. *)
Definition str_isdigit (s : string) : bool :=
  match s with
  | EmptyString => false
  | String _ _ => all_chars isdigit s
  end.

End Phone.

(** ** The session object ([class WhatsAppBot]) *)

Module Bot.
Import Py.

Record WhatsAppBot : Type := mkBot {
  device_id : string;
  headless : bool;
  driver : option nat;          (* [webdriver.Chrome] handle, [None] until launched *)
  session_dir : string;
  qr_code_path : string;
  is_authenticated : bool;
  whatsapp_url : string;
  profile_dir : string;
  last_activity : Z
}.

Definition set_driver (d : option nat) (b : WhatsAppBot) : WhatsAppBot :=
  mkBot (device_id b) (headless b) d (session_dir b) (qr_code_path b)
        (is_authenticated b) (whatsapp_url b) (profile_dir b) (last_activity b).

Definition set_is_authenticated (a : bool) (b : WhatsAppBot) : WhatsAppBot :=
  mkBot (device_id b) (headless b) (driver b) (session_dir b) (qr_code_path b)
        a (whatsapp_url b) (profile_dir b) (last_activity b).

(** What the session acts on outside the interpreter: the paths that exist
    (files and directories, compared as written), the browser processes
    that were launched and not quit, and a log of the calls made. *)
Inductive event : Type :=
  | EvLaunch (h : nat) (user_data_dir : string)
  | EvQuit (h : nat)
  | EvGet (url : string)
  | EvSendMedia (media_path : string)
  | EvSendText (message : string).

Record OS : Type := mkOS {
  files : gset string;
  live : gset nat;
  next_handle : nat;
  trace : list event
}.

Definition with_files (fs : gset string) (o : OS) : OS :=
  mkOS fs (live o) (next_handle o) (trace o).

Definition log (ev : event) (o : OS) : OS :=
  mkOS (files o) (live o) (next_handle o) (trace o ++ [ev]).

Definition exists_path (p : string) (o : OS) : bool := bool_decide (p ∈ files o).

(** The directories above [p]: the prefixes of [p] that end before a slash. *)
Fixpoint ancestors (acc p : string) : list string :=
  match p with
  | EmptyString => []
  | String c rest =>
      if Ascii.eqb c "/"
      then (if str_nonempty acc then [acc] else [])
             ++ ancestors (acc +:+ "/") rest
      else ancestors (acc +:+ String c EmptyString) rest
  end.

(** [os.makedirs(p, exist_ok=True)] *)
Definition makedirs (p : string) (o : OS) : OS :=
  with_files (files o ∪ list_to_set (ancestors EmptyString p) ∪ {[p]}) o.

(** [WhatsAppBot.__init__(self, device_id='default', headless=True,
    profile_dir=None)]; [now] is the reading of [time.time()]. *)
Definition default_device_id : string := "default".

Definition __init__ (device_id : string) (headless : bool)
    (profile_dir : option string) (now : Z) (o : OS) : WhatsAppBot * OS :=
  let session_dir := "sessions/" +:+ device_id in
  let qr_code_path := "qr_codes/" +:+ device_id +:+ "_qr.png" in
  let profile_dir :=
    match profile_dir with
    | Some p => p              (* a [Path] object is true; [str(profile_dir)] *)
    | None => session_dir +:+ "/user_data"
    end in
  let o := makedirs session_dir o in
  let o := makedirs "qr_codes" o in
  let o := makedirs profile_dir o in
  (mkBot device_id headless None session_dir qr_code_path false
         "https://web.whatsapp.com/" profile_dir now, o).

(** *** A state and exception monad for the methods

    A method runs on the pair of [self] and the outside world and either
    returns a value or raises; the payload of an exception is [str(e)]. *)
Definition state : Type := WhatsAppBot * OS.
Definition M (A : Type) : Type := state -> (string + A) * state.

Definition ret {A} (a : A) : M A := fun st => (inr a, st).
Definition raise {A} (msg : string) : M A := fun st => (inl msg, st).
Definition bind {A B} (m : M A) (k : A -> M B) : M B :=
  fun st =>
    match m st with
    | (inl msg, st') => (inl msg, st')
    | (inr a, st') => k a st'
    end.
(** [try: m  except Exception as e: h(str(e))] *)
Definition try_except {A} (m : M A) (h : string -> M A) : M A :=
  fun st =>
    match m st with
    | (inl msg, st') => h msg st'
    | (inr a, st') => (inr a, st')
    end.
Definition get_self : M WhatsAppBot := fun st => (inr (fst st), st).
Definition get_os : M OS := fun st => (inr (snd st), st).
Definition modify_self (f : WhatsAppBot -> WhatsAppBot) : M unit :=
  fun st => (inr tt, (f (fst st), snd st)).
Definition modify_os (f : OS -> OS) : M unit :=
  fun st => (inr tt, (fst st, f (snd st))).

Declare Scope py_scope.
Delimit Scope py_scope with py.
Notation "x <- m ;; k" := (bind m (fun x => k))
  (at level 100, m at next level, right associativity) : py_scope.
Notation "m ;;; k" := (bind m (fun _ => k))
  (at level 100, right associativity) : py_scope.
Local Open Scope py_scope.

(** A method whose body is one [try] with a catch-all handler never raises. *)
Definition run_total {A} (m : M A) (h : string -> A) (st : state) : A * state :=
  match m st with
  | (inl msg, st') => (h msg, st')
  | (inr a, st') => (a, st')
  end.

(** *** Result dictionaries *)
Definition success_dict : list (string * pyval) := [("success", PyBool true)].
Definition failure_dict (error : string) : list (string * pyval) :=
  [("success", PyBool false); ("error", PyStr error)].
Definition init_ok_dict (qr_required : bool) : list (string * pyval) :=
  [("success", PyBool true); ("qr_required", PyBool qr_required)].

(** *** Locating the executables *)
Definition chrome_paths : list string :=
  ["/usr/bin/google-chrome"; "/usr/bin/google-chrome-stable";
   "/usr/bin/chromium-browser"; "/usr/bin/chromium"; "/opt/google/chrome/chrome"].
Definition chromedriver_paths : list string :=
  ["/usr/local/bin/chromedriver"; "/usr/bin/chromedriver";
   "/opt/chromedriver"; "/app/chromedriver"].

(** [a or b] on the results of [shutil.which]. *)
Definition or_else (a b : option string) : option string :=
  if truthy (of_option_str a) then a else b.

Definition first_existing (paths : list string) (o : OS) : option string :=
  List.find (fun p => exists_path p o) paths.

Definition _find_chrome_executable (which : string -> option string) (o : OS)
    : option string :=
  match first_existing chrome_paths o with
  | Some path => Some path
  | None =>
      let chrome_path :=
        or_else (which "google-chrome")
          (or_else (which "google-chrome-stable") (which "chromium")) in
      if truthy (of_option_str chrome_path) then chrome_path else None
  end.

Definition _find_chromedriver_executable (which : string -> option string) (o : OS)
    : option string :=
  match first_existing chromedriver_paths o with
  | Some path => Some path
  | None =>
      let chromedriver_path := which "chromedriver" in
      if truthy (of_option_str chromedriver_path) then chromedriver_path else None
  end.

(** *** The environment of one call

    [poll] is what a [WebDriverWait(...).until(...)] call does: the awaited
    element shows up, the wait ends in [TimeoutException], or the driver
    raises something else. *)
Inductive poll : Type :=
  | Present
  | TimedOut
  | Raises (msg : string).

(** What [webdriver.Chrome(...)] and the three configuration calls after it
    do. *)
Inductive launch : Type :=
  | LaunchRaises (msg : string)        (* no driver object is returned *)
  | ConfigRaises (msg : string)        (* [self.driver] assigned, a later call raised *)
  | Launched.

Record InitEnv : Type := mkInitEnv {
  which : string -> option string;     (* [shutil.which] *)
  chrome : launch;
  load_page : option string;           (* [driver.get(whatsapp_url)] raises [Some msg] *)
  auth_first : poll;                   (* [_check_authentication], line 186 *)
  qr_wait : poll;                      (* [_wait_for_qr_code] *)
  qr_saved : bool;                     (* [_save_qr_code] wrote the image *)
  auth_polls : list poll;              (* the polls that fit in the 300 s window *)
  auth_last : poll                     (* [_check_authentication], line 202 *)
}.

Record SendEnv : Type := mkSendEnv {
  init_first : InitEnv;                (* [initialize_session], line 279 *)
  auth_recheck : poll;                 (* [_check_authentication], line 283 *)
  init_second : InitEnv;               (* [initialize_session], line 284 *)
  open_chat : option string;           (* [driver.get(chat_url)] raises [Some msg] *)
  chat_load : poll;                    (* [_wait_for_chat_to_load] *)
  media_sent : bool;                   (* [_send_media] found and clicked its way through *)
  text_sent : bool                     (* [_send_text_message] found the compose box *)
}.

(** What [driver.quit()] and [os.remove] do during [close]. *)
Record CloseEnv : Type := mkCloseEnv {
  quit_raises : option string;
  remove_raises : option string
}.

(** *** Driver calls *)

Definition none_has_no (attr : string) : string :=
  "'NoneType' object has no attribute '" +:+ attr +:+ "'".

(** [self.driver.get(url)] *)
Definition driver_get (outcome : option string) (url : string) : M unit :=
  self <- get_self ;;
  match driver self with
  | None => raise (none_has_no "get")
  | Some _ =>
      modify_os (log (EvGet url)) ;;;
      match outcome with
      | Some msg => raise msg
      | None => ret tt
      end
  end.

(** [WebDriverWait(self.driver, t).until(any_element_present(...))] inside
    [try: ... except TimeoutException]: [true] when the wait succeeds,
    [false] when the handler runs, and any other exception passes through. *)
Definition wait_until (p : poll) : M bool :=
  self <- get_self ;;
  match driver self with
  | None => raise (none_has_no "find_element")
  | Some _ =>
      match p with
      | Present => ret true
      | TimedOut => ret false
      | Raises msg => raise msg
      end
  end.

Definition _check_authentication (p : poll) : M bool :=
  found <- wait_until p ;;
  if found
  then modify_self (set_is_authenticated true) ;;; ret true
  else ret false.

Definition _wait_for_qr_code (p : poll) : M bool := wait_until p.

Definition _wait_for_chat_to_load (p : poll) : M bool := wait_until p.

(** [_save_qr_code]: every exception is caught inside; on success the image
    is written to [self.qr_code_path]. *)
Definition _save_qr_code (saved : bool) : M bool :=
  self <- get_self ;;
  if saved
  then modify_os (fun o => with_files (files o ∪ {[qr_code_path self]}) o) ;;; ret true
  else ret false.

(** [_wait_for_authentication]: the loop body runs once per poll that fits
    in the window; an exception ends the loop with [False]. *)
Fixpoint wait_for_authentication_loop (polls : list poll) : M bool :=
  match polls with
  | [] => ret false
  | p :: rest =>
      ok <- _check_authentication p ;;
      if ok
      then modify_self (set_is_authenticated true) ;;; ret true
      else wait_for_authentication_loop rest
  end.

Definition _wait_for_authentication (polls : list poll) : M bool :=
  try_except (wait_for_authentication_loop polls) (fun _ => ret false).

(** [_setup_driver] *)
Definition launch_chrome (user_data_dir : string) : M unit :=
  o <- get_os ;;
  let h := next_handle o in
  modify_os (fun o => mkOS (files o) (live o ∪ {[h]}) (S h)
                           (trace o ++ [EvLaunch h user_data_dir])) ;;;
  modify_self (set_driver (Some h)).

Definition _setup_driver (e : InitEnv) : M bool :=
  try_except
    (o <- get_os ;;
     let chrome_path := _find_chrome_executable (which e) o in
     let chromedriver_path := _find_chromedriver_executable (which e) o in
     if negb (truthy (of_option_str chrome_path)) then ret false
     else if negb (truthy (of_option_str chromedriver_path)) then ret false
     else
       self <- get_self ;;
       let user_data_dir := session_dir self +:+ "/user_data" in
       modify_os (makedirs user_data_dir) ;;;
       match chrome e with
       | LaunchRaises msg => raise msg
       | ConfigRaises msg => launch_chrome user_data_dir ;;; raise msg
       | Launched => launch_chrome user_data_dir ;;; ret true
       end)
    (fun _ => ret false).

(** [initialize_session] *)
Definition initialize_session_body (e : InitEnv) : M (list (string * pyval)) :=
  ok <- _setup_driver e ;;
  if negb ok then ret (failure_dict "Failed to setup WebDriver")
  else
    self <- get_self ;;
    driver_get (load_page e) (whatsapp_url self) ;;;
    authenticated <- _check_authentication (auth_first e) ;;
    if authenticated then ret (init_ok_dict false)
    else
      qr_code_present <- _wait_for_qr_code (qr_wait e) ;;
      if qr_code_present
      then
        _save_qr_code (qr_saved e) ;;;
        auth_success <- _wait_for_authentication (auth_polls e) ;;
        if auth_success then ret (init_ok_dict true)
        else ret (failure_dict "Authentication timeout")
      else
        authenticated <- _check_authentication (auth_last e) ;;
        if authenticated then ret (init_ok_dict false)
        else ret (failure_dict "Unable to load WhatsApp Web").

Definition initialize_session (e : InitEnv) (st : state)
    : list (string * pyval) * state :=
  run_total (initialize_session_body e) failure_dict st.

Definition lift_total {A} (f : state -> A * state) : M A :=
  fun st => let (a, st') := f st in (inr a, st').

(** [_send_media] and [_send_text_message]: both catch every exception and
    answer with a bool; without a driver the first wait raises inside. *)
Definition _send_media (sent : bool) (media_path : string) : M bool :=
  self <- get_self ;;
  modify_os (log (EvSendMedia media_path)) ;;;
  match driver self with
  | None => ret false
  | Some _ => ret sent
  end.

Definition _send_text_message (sent : bool) (message : string) : M bool :=
  self <- get_self ;;
  modify_os (log (EvSendText message)) ;;;
  match driver self with
  | None => ret false
  | Some _ => ret sent
  end.

(** [send_message(self, phone_number, message=None, media_path=None)],
    for a [phone_number] that is a [str] and a [message] and a
    [media_path] that are a [str] or [None]: on these the method never
    raises. Arguments of other types are the subject of
    [send_message_values] below. An early [return] is [Some result];
    [None] falls through to the next statement. *)
Definition reinitialize (e : InitEnv) : M (option (list (string * pyval))) :=
  init_result <- lift_total (initialize_session e) ;;
  if negb (truthy (dict_get "success" init_result))
  then ret (Some init_result)
  else ret None.

Definition ensure_driver (e : SendEnv) : M (option (list (string * pyval))) :=
  self <- get_self ;;
  match driver self with
  | None => reinitialize (init_first e)
  | Some _ => ret None
  end.

Definition ensure_authenticated (e : SendEnv) : M (option (list (string * pyval))) :=
  self <- get_self ;;
  if is_authenticated self then ret None
  else
    authenticated <- _check_authentication (auth_recheck e) ;;
    if authenticated then ret None
    else reinitialize (init_second e).

Definition dispatch (e : SendEnv) (phone_number : string)
    (message media_path : option string) : M (list (string * pyval)) :=
  let clean_phone := Phone.normalize_phone phone_number in
  let chat_url := "https://web.whatsapp.com/send?phone=" +:+ clean_phone in
  driver_get (open_chat e) chat_url ;;;
  loaded <- _wait_for_chat_to_load (chat_load e) ;;
  if negb loaded then ret (failure_dict "Failed to load chat interface")
  else
    o <- get_os ;;
    match media_path with
    | Some path =>
        if str_nonempty path && exists_path path o
        then _send_media (media_sent e) path ;;; ret tt
        else ret tt
    | None => ret tt
    end ;;;
    match message with
    | Some text =>
        if str_nonempty text
        then
          sent <- _send_text_message (text_sent e) text ;;
          if negb sent then ret (failure_dict "Failed to send text message")
          else ret success_dict
        else ret success_dict
    | None => ret success_dict
    end.

Definition send_message_body (e : SendEnv) (phone_number : string)
    (message media_path : option string) : M (list (string * pyval)) :=
  early <- ensure_driver e ;;
  match early with
  | Some init_result => ret init_result
  | None =>
      early <- ensure_authenticated e ;;
      match early with
      | Some init_result => ret init_result
      | None => dispatch e phone_number message media_path
      end
  end.

Definition send_message (e : SendEnv) (phone_number : string)
    (message media_path : option string) (st : state)
    : list (string * pyval) * state :=
  run_total (send_message_body e phone_number message media_path) failure_dict st.

(** *** [send_message] on arguments of any type

    Nothing checks the types of [phone_number] and [message], and the
    [/send] route passes the values of the JSON body on as they are;
    [media_path] is left at its default, as in that call. On strings the
    method is [send_message] above. *)
Definition lift_sum {A} (r : string + A) : M A :=
  match r with
  | inl msg => raise msg
  | inr a => ret a
  end.

(** [str.isdigit(v)], called as a function of the class: a [TypeError]
    unless [v] is a [str]. *)
Definition isdigit_of (v : pyval) : string + bool :=
  match v with
  | PyStr s => inr (Phone.str_isdigit s)
  | _ => inl ("descriptor 'isdigit' for 'str' objects doesn't apply to a '"
              +:+ type_name v +:+ "' object")
  end.

(** [''.join(filter(str.isdigit, elements))]: the filter is lazy, so the
    first element that is not a [str] raises. *)
Fixpoint join_digit_elements (elements : list pyval) : string + string :=
  match elements with
  | [] => inr EmptyString
  | v :: rest =>
      match isdigit_of v with
      | inl msg => inl msg
      | inr keep =>
          match join_digit_elements rest, v with
          | inl msg, _ => inl msg
          | inr joined, PyStr s => inr (if keep then s +:+ joined else joined)
          | inr joined, _ => inr joined
          end
      end
  end.

(** [''.join(filter(str.isdigit, phone_number))]: a [str] is iterated by
    character, a list by element and a dict by key; nothing else can be
    iterated. *)
Definition clean_phone_of (phone_number : pyval) : string + string :=
  match phone_number with
  | PyStr s => inr (Phone.join_filter Phone.isdigit s)
  | PyList elements => join_digit_elements elements
  | PyDict items => join_digit_elements (map (fun item => PyStr (fst item)) items)
  | _ => inl ("'" +:+ type_name phone_number +:+ "' object is not iterable")
  end.

(** [phone_number[:5]], evaluated for the log lines: a [str] and a list
    can be sliced; a dict takes the slice for a key ([TypeError] up to
    Python 3.11, from 3.12 a [KeyError] with another text). *)
Definition slice_raises (phone_number : pyval) : option string :=
  match phone_number with
  | PyStr _ | PyList _ => None
  | PyDict _ => Some "unhashable type: 'slice'"
  | _ => Some ("'" +:+ type_name phone_number +:+ "' object is not subscriptable")
  end.

Definition log_phone (phone_number : pyval) : M unit :=
  match slice_raises phone_number with
  | Some msg => raise msg
  | None => ret tt
  end.

(** [_send_text_message(message)]: [message.split] exists for a [str]
    only; the [AttributeError] is raised inside the method's own [try]. *)
Definition _send_text_message_value (sent : bool) (message : pyval) : M bool :=
  match message with
  | PyStr text => _send_text_message sent text
  | _ => ret false
  end.

(** Lines 288-308; the slice in the second log line (line 307) succeeds
    whenever the one in the first (line 293) has. *)
Definition dispatch_values (e : SendEnv) (phone_number message : pyval)
    : M (list (string * pyval)) :=
  clean_phone <- lift_sum (clean_phone_of phone_number) ;;
  let clean_phone := Phone.with_country_code clean_phone in
  let chat_url := "https://web.whatsapp.com/send?phone=" +:+ clean_phone in
  log_phone phone_number ;;;
  driver_get (open_chat e) chat_url ;;;
  loaded <- _wait_for_chat_to_load (chat_load e) ;;
  if negb loaded then ret (failure_dict "Failed to load chat interface")
  else
    if truthy message
    then
      sent <- _send_text_message_value (text_sent e) message ;;
      if negb sent then ret (failure_dict "Failed to send text message")
      else ret success_dict
    else ret success_dict.

Definition send_message_values_body (e : SendEnv) (phone_number message : pyval)
    : M (list (string * pyval)) :=
  early <- ensure_driver e ;;
  match early with
  | Some init_result => ret init_result
  | None =>
      early <- ensure_authenticated e ;;
      match early with
      | Some init_result => ret init_result
      | None => dispatch_values e phone_number message
      end
  end.

(** The handler of the [try] formats its log line with [phone_number[:5]]
    before it returns: where that raises, the exception leaves the
    method. *)
Definition send_message_values (e : SendEnv) (phone_number message : pyval)
    : M (list (string * pyval)) :=
  try_except (send_message_values_body e phone_number message)
    (fun msg => log_phone phone_number ;;; ret (failure_dict msg)).

(** [get_qr_code_path]: a [str], or [None]. *)
Definition get_qr_code_path (st : state) : pyval :=
  if exists_path (qr_code_path (fst st)) (snd st)
  then PyStr (qr_code_path (fst st))
  else PyNone.

(** [close] *)
Definition close_body (e : CloseEnv) : M unit :=
  self <- get_self ;;
  match driver self with
  | Some h =>
      modify_os (log (EvQuit h)) ;;;
      match quit_raises e with
      | Some msg => raise msg
      | None =>
          modify_os (fun o => mkOS (files o) (live o ∖ {[h]}) (next_handle o) (trace o))
      end ;;;
      modify_self (set_driver None) ;;;
      modify_self (set_is_authenticated false) ;;;
      o <- get_os ;;
      if exists_path (qr_code_path self) o
      then
        match remove_raises e with
        | Some msg => raise msg
        | None => modify_os (fun o => with_files (files o ∖ {[qr_code_path self]}) o)
        end
      else ret tt
  | None => ret tt
  end.

Definition close (e : CloseEnv) (st : state) : state :=
  snd (run_total (close_body e) (fun _ => tt) st).

(** [__del__] (the second definition in the class body, which replaces the
    first): the finalizer calls [close]. The interpreter runs it when the
    last reference to the object goes. *)
Definition __del__ (e : CloseEnv) (st : state) : state := close e st.

(** *** Specifications of methods

    [triple R Q m]: whatever state [m] starts in, the state it ends in is
    related to it by [R], and a value it returns satisfies [Q]. *)
Definition triple (R : state -> state -> Prop) {A} (Q : A -> Prop) (m : M A) : Prop :=
  forall st, R st (snd (m st)) /\ forall a, fst (m st) = inr a -> Q a.

Definition any {A} : A -> Prop := fun _ => True.

(** The attributes that are set by the constructor and read afterwards. *)
Definition same_attributes (st st' : state) : Prop :=
  last_activity (fst st') = last_activity (fst st)
  /\ device_id (fst st') = device_id (fst st)
  /\ session_dir (fst st') = session_dir (fst st)
  /\ qr_code_path (fst st') = qr_code_path (fst st)
  /\ profile_dir (fst st') = profile_dir (fst st).

(** The reading of "a send refreshes [last_activity]": the attribute is
    larger after the call than before. *)
Definition activity_refreshed (before after : state) : Prop :=
  last_activity (fst before) < last_activity (fst after).

Definition nonempty_dict (items : list (string * pyval)) : Prop :=
  truthy (PyDict items) = true.

(** An early return hands back a result of [initialize_session]. *)
Definition early_ok (early : option (list (string * pyval))) : Prop :=
  forall init_result, early = Some init_result -> nonempty_dict init_result.

(** A result whose ['success'] entry is false, and an early return of one. *)
Definition failed (result : list (string * pyval)) : Prop :=
  truthy (dict_get "success" result) = false.

Definition early_failed (early : option (list (string * pyval))) : Prop :=
  forall init_result, early = Some init_result -> failed init_result.

Definition always : state -> state -> Prop := fun _ _ => True.

(** The same environment, with another answer of the media step. *)
Definition with_media_sent (sent : bool) (e : SendEnv) : SendEnv :=
  mkSendEnv (init_first e) (auth_recheck e) (init_second e) (open_chat e)
            (chat_load e) sent (text_sent e).

(** *** The rest of the class *)

(** [get_session_status]; [auth] and [qr] are what the two waits do. *)
Definition get_session_status (auth qr : poll) (st : state) : string * state :=
  run_total
    (self <- get_self ;;
     match driver self with
     | None => ret "not_initialized"
     | Some _ =>
         authenticated <- _check_authentication auth ;;
         if authenticated then ret "authenticated"
         else
           qr_present <- _wait_for_qr_code qr ;;
           if qr_present then ret "qr_required" else ret "unknown"
     end)
    (fun _ => "error") st.

(** The port in [--remote-debugging-port={9222 + hash(self.device_id) % 1000}];
    [hash] is the interpreter's string hash, any integer. *)
Definition remote_debugging_port (hash : string -> Z) (self : WhatsAppBot) : Z :=
  9222 + hash (device_id self) mod 1000.

(** The condition built by [any_element_present], applied to the driver;
    [selectors] are its arguments and [find] is
    [driver.find_element(By.CSS_SELECTOR, selector)]: an element, a
    [NoSuchElementException], or another exception. *)
Inductive lookup : Type :=
  | Found
  | NoSuchElement
  | LookupRaises (msg : string).

Fixpoint any_element_present (find : string -> lookup) (selectors : list string)
    : string + bool :=
  match selectors with
  | [] => inr false
  | selector :: rest =>
      match find selector with
      | Found => inr true
      | NoSuchElement => any_element_present find rest
      | LookupRaises msg => inl msg
      end
  end.

(** What [_send_text_message] does with the compose box once it has found
    it (lines 347-355): a click, then the lines of the message with
    Shift+Enter between them, then Enter. *)
Inductive key : Type :=
  | Click
  | SendKeys (text : string)
  | ShiftEnter
  | Enter.

Definition newline : ascii := Ascii.ascii_of_nat 10.

(** [message.split('\n')] *)
Fixpoint split_newline (message : string) : list string :=
  match message with
  | EmptyString => [EmptyString]
  | String c rest =>
      if Ascii.eqb c newline then EmptyString :: split_newline rest
      else
        match split_newline rest with
        | line :: lines => String c line :: lines
        | [] => [String c EmptyString]
        end
  end.

Fixpoint type_lines (lines : list string) : list key :=
  match lines with
  | [] => []
  | line :: rest =>
      match rest with
      | [] => [SendKeys line]
      | _ :: _ => SendKeys line :: ShiftEnter :: type_lines rest
      end
  end.

Definition compose_keys (message : string) : list key :=
  Click :: type_lines (split_newline message) ++ [Enter].

(** The text that is in the compose box after a run of keys, a Shift+Enter
    being a line break in the box. *)
Fixpoint typed (keys : list key) : string :=
  match keys with
  | [] => EmptyString
  | SendKeys text :: rest => text +:+ typed rest
  | ShiftEnter :: rest => String newline (typed rest)
  | _ :: rest => typed rest
  end.

Fixpoint count_newlines (message : string) : nat :=
  match message with
  | EmptyString => 0%nat
  | String c rest =>
      if Ascii.eqb c newline then S (count_newlines rest) else count_newlines rest
  end.

Definition is_shift_enter (k : key) : bool :=
  match k with ShiftEnter => true | _ => false end.

Definition is_enter (k : key) : bool :=
  match k with Enter => true | _ => false end.

(** A call never takes back what the session has: the flag and the handle
    stay once set, files and browsers stay, and the calls added to the log
    contain no [quit]. *)
Definition never_undoes (st st' : state) : Prop :=
  (is_authenticated (fst st) = true -> is_authenticated (fst st') = true)
  /\ (is_Some (driver (fst st)) -> is_Some (driver (fst st')))
  /\ files (snd st) ⊆ files (snd st')
  /\ live (snd st) ⊆ live (snd st')
  /\ exists added, trace (snd st') = trace (snd st) ++ added
                /\ forall h, EvQuit h ∉ added.

(** [self.profile_dir = ...], and a method that runs the same whatever that
    attribute holds. *)
Definition set_profile_dir (p : string) (b : WhatsAppBot) : WhatsAppBot :=
  mkBot (device_id b) (headless b) (driver b) (session_dir b) (qr_code_path b)
        (is_authenticated b) (whatsapp_url b) p (last_activity b).

Definition blind {A} (m : M A) : Prop :=
  forall p st,
    m (set_profile_dir p (fst st), snd st)
    = (fst (m st), (set_profile_dir p (fst (snd (m st))), snd (snd (m st)))).

Definition not_a_quit (ev : event) : Prop := forall h, ev <> EvQuit h.

Definition not_a_send (ev : event) : Prop :=
  match ev with
  | EvSendMedia _ | EvSendText _ => False
  | _ => True
  end.

(** The calls added to the log send nothing. *)
Definition sends_nothing (st st' : state) : Prop :=
  exists added, trace (snd st') = trace (snd st) ++ added
    /\ forall ev, ev ∈ added ->
         match ev with
         | EvSendMedia _ | EvSendText _ => False
         | _ => True
         end.

(** The two shapes of a result of [send_message], and the three of
    [initialize_session]. *)
Definition send_result (result : list (string * pyval)) : Prop :=
  result = success_dict \/ exists error, result = failure_dict error.

Definition init_result_shape (result : list (string * pyval)) : Prop :=
  (exists qr_required, result = init_ok_dict qr_required)
  \/ exists error, result = failure_dict error.

End Bot.

(** ** The registry and the routes ([app.py]) *)

Module App.
Import Py.
Export Bot.

Record Config : Type := mkConfig {
  HEADLESS : bool;
  API_KEY : option string;
  SESSION_TIMEOUT_MINUTES : Z
}.

(** The interpreter state of the service: the module-level dict
    [bot_instances] holds references into the object store [heap]; a
    session object keeps its address for as long as it exists. *)
Record World : Type := mkWorld {
  bot_instances : gmap string nat;
  heap : list WhatsAppBot;
  os : OS
}.

Definition empty_os : OS := mkOS ∅ ∅ 0 [].
Definition start : World := mkWorld ∅ [] (makedirs "sessions" empty_os).

(** Calling a method through a reference: the object is read from the
    store, the method runs, the object is written back. *)
Definition method {A} (bot : nat) (m : state -> A * state) (w : World)
    : (string + A) * World :=
  match heap w !! bot with
  | Some self =>
      let '(a, (self', o)) := m (self, os w) in
      (inr a, mkWorld (bot_instances w) (<[bot := self']> (heap w)) o)
  | None => (inl "invalid object reference", w)
  end.

(** *** [pathlib] on POSIX paths

    A path is its root and its names: the names are the segments between
    slashes, without the empty ones and the dots; a path that starts with
    exactly two slashes keeps both. *)
Fixpoint split_slash (s : string) : list string :=
  match s with
  | EmptyString => [EmptyString]
  | String c rest =>
      if Ascii.eqb c "/" then EmptyString :: split_slash rest
      else
        match split_slash rest with
        | name :: names => String c name :: names
        | [] => [String c EmptyString]
        end
  end.

Definition path_names (s : string) : list string :=
  List.filter (fun name => str_nonempty name && negb (String.eqb name "."))
              (split_slash s).

Definition path_root (s : string) : string :=
  if Phone.startswith s "/"
  then if Phone.startswith s "//" && negb (Phone.startswith s "///")
       then "//" else "/"
  else EmptyString.

Fixpoint join_slash (names : list string) : string :=
  match names with
  | [] => EmptyString
  | [name] => name
  | name :: rest => name +:+ "/" +:+ join_slash rest
  end.

(** [str(path)] *)
Definition path_str (root : string) (names : list string) : string :=
  match root, names with
  | EmptyString, [] => "."
  | _, _ => root +:+ join_slash names
  end.

(** [str(Path(base) / other)]: an absolute [other] replaces [base]. *)
Definition joinpath (base other : string) : string :=
  if Phone.startswith other "/"
  then path_str (path_root other) (path_names other)
  else path_str (path_root base) (path_names base ++ path_names other).

(** [SESSIONS_DIR] is [Path("./sessions")]; [profile_path] is
    [str(SESSIONS_DIR / device_id)], what the constructor stores. *)
Definition SESSIONS_DIR : string := "./sessions".
Definition profile_path (device_id : string) : string :=
  joinpath SESSIONS_DIR device_id.

(** *** Reference counting

    CPython finalizes an object the moment its last reference goes. When
    the registry gives up a reference, the object is still referenced if
    another registry entry holds it or if the caller does: [held] are the
    session objects the caller still refers to (the value of an earlier
    [get_or_create_bot] kept in a variable), and [on_del] is what
    [driver.quit()] and [os.remove] do when the finalizer runs. *)
Record Collector : Type := mkCollector {
  held : gset nat;
  on_del : CloseEnv
}.

Definition referenced (gc : Collector) (bot : nat) (w : World) : bool :=
  bool_decide (bot ∈ held gc)
  || bool_decide (bot ∈ (map_img (bot_instances w) : gset nat)).

(** The registry has dropped its reference to [old]. *)
Definition release (gc : Collector) (old : nat) (w : World) : World :=
  if referenced gc old w then w
  else snd (method old (fun st => (tt, Bot.__del__ (on_del gc) st)) w).

(** [get_or_create_bot(device_id='default', force_new=False)]; [now] is
    read by the constructor only. The constructor is called without a
    [device_id] argument, so the parameter takes its default. The
    assignment [bot_instances[device_id] = bot] stores the new reference
    and then releases the one it has replaced, if there was one. *)
Definition get_or_create_bot (cfg : Config) (gc : Collector) (now : Z)
    (device_id : string) (force_new : bool) (w : World) : nat * World :=
  match (if force_new then None else bot_instances w !! device_id) with
  | Some bot => (bot, w)
  | None =>
      let profile_dir := profile_path device_id in
      let (self, o) :=
        Bot.__init__ default_device_id (HEADLESS cfg) (Some profile_dir) now (os w) in
      let bot := length (heap w) in
      let stored :=
        mkWorld (<[device_id := bot]> (bot_instances w)) (heap w ++ [self]) o in
      (bot, match bot_instances w !! device_id with
            | Some old => release gc old stored
            | None => stored
            end)
  end.

(** The routes call [get_or_create_bot(device_id)], with [force_new] at
    its default: a reference is stored only under a device id that has
    none, nothing is released, and the collector is not consulted. *)
Definition unconsulted : Collector := mkCollector ∅ (mkCloseEnv None None).

(** Every reference held by the registry points into the object store. *)
Definition wf (w : World) : Prop :=
  forall (device_id : string) (bot : nat),
    bot_instances w !! device_id = Some bot -> (bot < length (heap w))%nat.

(** [cleanup_old_sessions]: the loop runs over a snapshot of the items; the
    [try] in its body skips to the next item on an exception. The snapshot
    of the finite map lists the items by key, not by insertion; a step
    removes no entry but its own and writes no object but its own. *)
Definition timeout_seconds (cfg : Config) : Z := SESSION_TIMEOUT_MINUTES cfg * 60.

Definition too_old (cfg : Config) (current_time : Z) (self : WhatsAppBot) : bool :=
  bool_decide (timeout_seconds cfg < current_time - last_activity self).

Definition cleanup_step (cfg : Config) (cenv : string -> CloseEnv)
    (current_time : Z) (w : World) (item : string * nat) : World :=
  let (device_id, bot) := item in
  match heap w !! bot with
  | Some self =>
      if too_old cfg current_time self
      then
        let (self', o) := Bot.close (cenv device_id) (self, os w) in
        mkWorld (delete device_id (bot_instances w)) (<[bot := self']> (heap w)) o
      else w
  | None => w
  end.

Definition cleanup_old_sessions (cfg : Config) (cenv : string -> CloseEnv)
    (current_time : Z) (w : World) : World :=
  foldl (cleanup_step cfg cenv current_time) w (map_to_list (bot_instances w)).

(** The object at address [bot] exists and is past the timeout. *)
Definition old_at (cfg : Config) (current_time : Z) (w : World) (bot : nat) : bool :=
  match heap w !! bot with
  | Some self => too_old cfg current_time self
  | None => false
  end.

(** What a sweep may do to the object store and to the browsers between
    two of its steps: no object appears or disappears, [last_activity]
    stays, an object within the timeout is not written at all, a cleared
    driver handle stays cleared, a handle is cleared only together with
    the end of its browser, and no browser is started. *)
Definition evolves (cfg : Config) (current_time : Z) (w w' : World) : Prop :=
  length (heap w') = length (heap w)
  /\ live (os w') ⊆ live (os w)
  /\ forall bot self, heap w !! bot = Some self ->
       exists self', heap w' !! bot = Some self'
         /\ last_activity self' = last_activity self
         /\ (too_old cfg current_time self = false -> self' = self)
         /\ (driver self = None -> driver self' = None)
         /\ (forall h, driver self = Some h ->
               driver self' = Some h \/ (driver self' = None /\ h ∉ live (os w'))).

(** *** Responses *)
Inductive payload : Type :=
  | Json (items : list (string * pyval))
  | File (path : string)      (* [send_from_directory(path.parent, path.name)] *)
  | ErrorPage.                (* Flask's page for an exception that leaves the view *)

Record Response : Type := mkResponse {
  status : nat;
  body : payload
}.

Definition jsonify (items : list (string * pyval)) : Response := mkResponse 200 (Json items).
Definition jsonify_status (items : list (string * pyval)) (code : nat) : Response :=
  mkResponse code (Json items).

(** An exception that no handler of the view catches: Flask logs it and
    answers 500 Internal Server Error. *)
Definition internal_server_error : Response := mkResponse 500 ErrorPage.

(** [require_api_key]; [provided_key] is the [X-API-KEY] header. *)
Definition require_api_key (cfg : Config) (provided_key : option string)
    (f : World -> Response * World) (w : World) : Response * World :=
  if truthy (of_option_str (API_KEY cfg))
  then
    if negb (truthy (of_option_str provided_key))
       || negb (bool_decide (provided_key = API_KEY cfg))
    then (jsonify_status [("success", PyBool false);
                          ("error", PyStr "Invalid or missing API key")] 401, w)
    else f w
  else f w.

(** [v.exists()]: only a [Path] has the method. *)
Definition path_exists (v : pyval) (o : OS) : string + bool :=
  match v with
  | PyPath p => inr (exists_path p o)
  | _ => inl (no_attribute v "exists")
  end.

(** [GET /qr/<device_id>] *)
Definition get_qr_code_handler (cfg : Config) (now : Z) (device_id : string)
    (w : World) : Response * World :=
  let (bot, w) := get_or_create_bot cfg unconsulted now device_id false w in
  let failed (msg : string) :=
    jsonify_status [("success", PyBool false); ("error", PyStr msg)] 500 in
  let not_available :=
    jsonify_status [("success", PyBool false);
                    ("error", PyStr "QR code not available")] 404 in
  match method bot (fun st => (get_qr_code_path st, st)) w with
  | (inl msg, w) => (failed msg, w)
  | (inr qr_path, w) =>
      if truthy qr_path
      then
        match path_exists qr_path (os w), qr_path with
        | inl msg, _ => (failed msg, w)
        | inr true, PyPath p => (mkResponse 200 (File p), w)
        | inr _, _ => (not_available, w)
        end
      else (not_available, w)
  end.

Definition get_qr_code (cfg : Config) (provided_key : option string) (now : Z)
    (device_id : string) : World -> Response * World :=
  require_api_key cfg provided_key (get_qr_code_handler cfg now device_id).

(** [POST /send/<device_id>]; [json] is what
    [request.get_json(silent=True)] returns: the parsed body, or [None]
    when there is none or it is not JSON; [timestamp] is
    [datetime.now().isoformat()]. The first three statements stand before
    the [try]: [data.get] raises out of the view when the body is a
    non-empty list or string, a number other than zero, or [true]. *)
Definition send_message_handler (cfg : Config) (env : SendEnv) (now : Z)
    (timestamp : string) (device_id : string) (json : pyval)
    (w : World) : Response * World :=
  let data := if truthy json then json else PyDict [] in
  match data with
  | PyDict items =>
      let phone := dict_get "phone" items in
      let message := dict_get "message" items in
      if negb (truthy phone) || negb (truthy message)
      then (jsonify_status
              [("success", PyBool false);
               ("error", PyStr "'phone' and 'message' fields are required")] 400, w)
      else
        let failed (msg : string) :=
          jsonify_status
            [("success", PyBool false);
             ("error", PyStr msg);
             ("device_id", PyStr device_id);
             ("timestamp", PyStr timestamp)] 500 in
        let (bot, w) := get_or_create_bot cfg unconsulted now device_id false w in
        match method bot (Bot.send_message_values env phone message) w with
        | (inr (inr success), w) =>
            if truthy (PyDict success)
            then (jsonify [("success", PyBool true);
                           ("device_id", PyStr device_id);
                           ("phone", phone);
                           ("timestamp", PyStr timestamp)], w)
            else (failed "Failed to send message", w)
        | (inr (inl msg), w) => (failed msg, w)
        | (inl msg, w) => (failed msg, w)
        end
  | _ => (internal_server_error, w)
  end.

Definition send_message (cfg : Config) (provided_key : option string)
    (env : SendEnv) (now : Z) (timestamp : string) (device_id : string)
    (json : pyval) : World -> Response * World :=
  require_api_key cfg provided_key
    (send_message_handler cfg env now timestamp device_id json).

(** [POST /initialize/<device_id>] *)
Definition initialize_session_handler (cfg : Config) (env : InitEnv) (now : Z)
    (timestamp : string) (device_id : string) (w : World) : Response * World :=
  let (bot, w) := get_or_create_bot cfg unconsulted now device_id false w in
  let failed (msg : string) :=
    jsonify_status [("success", PyBool false); ("error", PyStr msg);
                    ("device_id", PyStr device_id);
                    ("timestamp", PyStr timestamp)] 500 in
  match heap w !! bot with
  | None => (failed ("Error initializing session: " +:+ "invalid object reference"), w)
  | Some self =>
      if is_authenticated self
      then (jsonify [("success", PyBool true);
                     ("message", PyStr "Session already authenticated");
                     ("device_id", PyStr device_id);
                     ("qr_required", PyBool false);
                     ("timestamp", PyStr timestamp)], w)
      else
        match method bot (Bot.initialize_session env) w with
        | (inl msg, w) => (failed ("Error initializing session: " +:+ msg), w)
        | (inr result, w) =>
            if truthy (dict_get "success" result)
            then
              let qr_required := dict_get "qr_required" result in
              (jsonify [("success", PyBool true);
                        ("message", PyStr "Session initialized successfully");
                        ("device_id", PyStr device_id);
                        ("qr_required",
                           default (PyBool false) (assoc "qr_required" result));
                        ("qr_url",
                           if truthy qr_required
                           then PyStr ("/qr/" +:+ device_id) else PyNone);
                        ("timestamp", PyStr timestamp)], w)
            else
              (jsonify_status
                 [("success", PyBool false);
                  ("error",
                     default (PyStr "Unknown error initializing session")
                             (assoc "error" result));
                  ("device_id", PyStr device_id);
                  ("timestamp", PyStr timestamp)] 500, w)
        end
  end.

Definition initialize_session (cfg : Config) (provided_key : option string)
    (env : InitEnv) (now : Z) (timestamp : string) (device_id : string)
    : World -> Response * World :=
  require_api_key cfg provided_key
    (initialize_session_handler cfg env now timestamp device_id).

(** [DELETE /sessions/<device_id>] *)
Definition delete_session_handler (cenv : CloseEnv) (device_id : string)
    (w : World) : Response * World :=
  let deleted :=
    jsonify [("success", PyBool true);
             ("message", PyStr ("Session " +:+ device_id +:+ " deleted"))] in
  match bot_instances w !! device_id with
  | Some bot =>
      match method bot (fun st => (tt, Bot.close cenv st)) w with
      | (inr _, w) =>
          (deleted, mkWorld (delete device_id (bot_instances w)) (heap w) (os w))
      | (inl msg, w) =>
          (jsonify_status [("success", PyBool false); ("error", PyStr msg)] 500, w)
      end
  | None => (deleted, w)
  end.

Definition delete_session (cfg : Config) (provided_key : option string)
    (cenv : CloseEnv) (device_id : string) : World -> Response * World :=
  require_api_key cfg provided_key (delete_session_handler cenv device_id).



(** The request passes [require_api_key]: no key is configured (or an
    empty one), or the header carries the configured key. *)
Definition authorised (cfg : Config) (provided_key : option string) : Prop :=
  truthy (of_option_str (API_KEY cfg)) = false \/ provided_key = API_KEY cfg.

Definition unauthorized : Response :=
  jsonify_status [("success", PyBool false);
                  ("error", PyStr "Invalid or missing API key")] 401.

Definition fields_required : Response :=
  jsonify_status
    [("success", PyBool false);
     ("error", PyStr "'phone' and 'message' fields are required")] 400.

End App.

(** ** Concrete configurations and environments *)

Module Scenario.
Import Py.
Import App.

Definition cfg : Config := mkConfig true None 30.

Definition nowhere : string -> option string := fun _ => None.

(** A host with Chrome and ChromeDriver at well-known paths. *)
Definition installed (w : World) : World :=
  mkWorld (bot_instances w) (heap w)
    (with_files (files (os w) ∪ {["/usr/bin/google-chrome"]}
                              ∪ {["/usr/bin/chromedriver"]}) (os w)).

(** The profile on disk is already linked: the chat list shows at once. *)
Definition linked : InitEnv :=
  mkInitEnv nowhere Launched None Present TimedOut false [] TimedOut.

(** A fresh profile: the scan code shows, is saved, and nobody scans it. *)
Definition unscanned : InitEnv :=
  mkInitEnv nowhere Launched None TimedOut Present true [TimedOut; TimedOut] TimedOut.

(** A fresh profile whose scan code is scanned at the second poll. *)
Definition scanned : InitEnv :=
  mkInitEnv nowhere Launched None TimedOut Present true [TimedOut; Present] TimedOut.

(** Every step of a send works. *)
Definition all_fine : SendEnv :=
  mkSendEnv linked Present linked None Present true true.

(** The chat never becomes ready. *)
Definition chat_stuck : SendEnv :=
  mkSendEnv linked Present linked None TimedOut true true.

(** Media goes through, the compose box is never found. *)
Definition text_fails : SendEnv :=
  mkSendEnv linked Present linked None Present true false.

Definition quiet : CloseEnv := mkCloseEnv None None.

(** The JSON body [{"phone": phone, "message": message}]. *)
Definition body_of (phone message : string) : pyval :=
  PyDict [("phone", PyStr phone); ("message", PyStr message)].

(** [quit] raises for the session registered as "a". *)
Definition flaky (device_id : string) : CloseEnv :=
  if String.eqb device_id "a"
  then mkCloseEnv (Some "chrome not reachable") None
  else quiet.


(** Two linked sessions: "a" constructed at time 0, "b" at time 1000. *)
Definition two_sessions : World :=
  let w := snd (App.initialize_session cfg None linked 0 "t0" "a" (installed start)) in
  snd (App.initialize_session cfg None linked 1000 "t1" "b" w).

Definition session_a : WhatsAppBot :=
  mkBot "default" true (Some 0%nat) "sessions/default" "qr_codes/default_qr.png"
        true "https://web.whatsapp.com/" "sessions/a" 0.

Definition session_b : WhatsAppBot :=
  mkBot "default" true (Some 1%nat) "sessions/default" "qr_codes/default_qr.png"
        true "https://web.whatsapp.com/" "sessions/b" 1000.

(** A session constructed at time 100 on a host with the browser installed. *)
Definition fresh : state :=
  Bot.__init__ "default" true (Some "sessions/default") 100 (os (installed start)).

(** The same, with a scan-code image left on disk by an earlier run of the
    service. *)
Definition fresh_with_image : state :=
  (fst fresh, with_files (files (snd fresh) ∪ {["qr_codes/default_qr.png"]}) (snd fresh)).

(** A linked session with a running browser, and a picture to send. *)
Definition ready : state :=
  let st := snd (Bot.initialize_session linked fresh) in
  (fst st, with_files (files (snd st) ∪ {["media/photo.png"]}) (snd st)).

End Scenario.

(** * Properties *)

(** ** Phone number normalisation *)

Section PhoneFacts.
Import Phone.

Lemma join_filter_chars (pred : ascii -> bool) (s : string) :
  list_ascii_of_string (join_filter pred s)
  = List.filter pred (list_ascii_of_string s).
Proof.
  induction s as [|c rest IH]; simpl; [reflexivity|].
  destruct (pred c); simpl; now rewrite IH.
Qed.

Lemma join_filter_all (pred : ascii -> bool) (s : string) :
  all_chars pred (join_filter pred s) = true.
Proof.
  induction s as [|c rest IH]; simpl; [reflexivity|].
  destruct (pred c) eqn:Hc; simpl; [rewrite Hc|]; exact IH.
Qed.

Lemma join_filter_id (pred : ascii -> bool) (s : string) :
  all_chars pred s = true -> join_filter pred s = s.
Proof.
  induction s as [|c rest IH]; simpl; [reflexivity|].
  intros [Hc Hrest]%andb_true_iff. rewrite Hc. f_equal. now apply IH.
Qed.

Lemma isdigit_ascii (c : ascii) :
  (code c < 128)%N -> isdigit c = true <-> (48 <= code c <= 57)%N.
Proof.
  unfold isdigit. intros Hlt.
  rewrite !orb_true_iff, andb_true_iff, !N.leb_le, !N.eqb_eq. lia.
Qed.

(** C6. Normalisation keeps exactly the digit characters of the input, in
    order; when ten digits remain and they do not start with 91 it puts 91
    in front, and otherwise changes nothing more. "9876543210" and
    "+91 98765 43210" both become "919876543210", and a number of twelve
    digits is returned as it is. *)
Theorem normalize_phone_spec (phone_number : string) :
  let digits := join_filter isdigit phone_number in
  list_ascii_of_string digits
    = List.filter isdigit (list_ascii_of_string phone_number)
  /\ all_chars isdigit (normalize_phone phone_number) = true
  /\ (String.length digits = 10%nat -> startswith digits "91" = false ->
      normalize_phone phone_number = "91" +:+ digits)
  /\ (String.length digits <> 10%nat \/ startswith digits "91" = true ->
      normalize_phone phone_number = digits)
  /\ (all_chars isdigit phone_number = true ->
      String.length phone_number = 12%nat ->
      normalize_phone phone_number = phone_number)
  /\ normalize_phone "9876543210" = "919876543210"
  /\ normalize_phone "+91 98765 43210" = "919876543210"
  /\ normalize_phone "919876543210" = "919876543210".
Proof.
  intros digits. unfold normalize_phone. fold digits.
  split; [apply join_filter_chars|].
  split.
  { destruct (negb (startswith digits "91") && (String.length digits =? 10)%nat);
      simpl; apply join_filter_all. }
  split.
  { intros Hlen Hpre. rewrite Hpre, Hlen. reflexivity. }
  split.
  { intros [Hlen|Hpre].
    - apply Nat.eqb_neq in Hlen. rewrite Hlen, andb_false_r. reflexivity.
    - rewrite Hpre. reflexivity. }
  split.
  { intros Hall Hlen. subst digits. rewrite (join_filter_id _ _ Hall), Hlen.
    rewrite andb_false_r. reflexivity. }
  repeat split; reflexivity.
Qed.

Lemma normalize_phone_spec_witness :
  normalize_phone "447911123456" = "447911123456"
  /\ normalize_phone "(987) 654-3210" = "919876543210"
  /\ normalize_phone "91-2345-6789" = "9123456789".
Proof.
  split; [|split].
  - apply (normalize_phone_spec "447911123456"); reflexivity.
  - apply (normalize_phone_spec "(987) 654-3210"); reflexivity.
  - apply (normalize_phone_spec "91-2345-6789"). right. reflexivity.
Defined.

End PhoneFacts.

(** ** The registry *)

Section RegistryFacts.
Import Py App Scenario.

Lemma wf_start : wf start.
Proof. intros d b H. vm_compute in H. discriminate. Qed.

(** *** The collector *)

Lemma release_registry gc old w :
  bot_instances (release gc old w) = bot_instances w.
Proof.
  unfold release. destruct (referenced gc old w); [reflexivity|].
  unfold method. destruct (heap w !! old) as [self|]; [|reflexivity].
  destruct (Bot.__del__ (on_del gc) (self, os w)) as [self' o]. reflexivity.
Qed.

Lemma release_length gc old w :
  length (heap (release gc old w)) = length (heap w).
Proof.
  unfold release. destruct (referenced gc old w); [reflexivity|].
  unfold method. destruct (heap w !! old) as [self|]; [|reflexivity].
  destruct (Bot.__del__ (on_del gc) (self, os w)) as [self' o]. simpl.
  apply length_insert.
Qed.

Lemma release_other gc old w bot :
  bot <> old -> heap (release gc old w) !! bot = heap w !! bot.
Proof.
  intros Hne. unfold release. destruct (referenced gc old w); [reflexivity|].
  unfold method. destruct (heap w !! old) as [self|]; [|reflexivity].
  destruct (Bot.__del__ (on_del gc) (self, os w)) as [self' o]. simpl.
  now apply list_lookup_insert_ne.
Qed.

(** An object that is still referenced is left alone. *)
Lemma release_referenced gc old w :
  old ∈ held gc \/ (exists device_id, bot_instances w !! device_id = Some old) ->
  release gc old w = w.
Proof.
  intros Href. unfold release, referenced.
  destruct Href as [Hheld|[device_id Hreg]].
  - now rewrite (bool_decide_eq_true_2 _ Hheld).
  - rewrite (bool_decide_eq_true_2 (old ∈ (map_img (bot_instances w) : gset nat)));
      [now rewrite orb_true_r|].
    now apply (elem_of_map_img_2 _ device_id).
Qed.

(** *** The profile directory

    For a device id that is one path segment other than the dot, the
    profile directory is the segment below [sessions]; the dot gives
    [sessions] itself, and an absolute path replaces the base. *)
Lemma split_slash_segment s :
  Phone.all_chars (fun c => negb (Ascii.eqb c "/")) s = true ->
  split_slash s = [s].
Proof.
  induction s as [|c rest IH]; [reflexivity|].
  simpl. intros [Hc Hrest]%andb_prop.
  apply negb_true_iff in Hc. rewrite Hc, (IH Hrest). reflexivity.
Qed.

Lemma profile_path_segment device_id :
  Phone.all_chars (fun c => negb (Ascii.eqb c "/")) device_id = true ->
  str_nonempty device_id = true ->
  device_id <> "." ->
  profile_path device_id = "sessions/" +:+ device_id.
Proof.
  intros Hslash Hne Hdot. unfold profile_path, joinpath.
  assert (Phone.startswith device_id "/" = false) as ->.
  { destruct device_id as [|c rest]; [discriminate|].
    simpl in Hslash. apply andb_prop in Hslash as [Hc _].
    apply negb_true_iff, Ascii.eqb_neq in Hc.
    unfold Phone.startswith.
    change (String.prefix "/" (String c rest))
      with (if ascii_dec "/" c then String.prefix EmptyString rest else false).
    destruct (ascii_dec "/" c) as [<-|_]; [now destruct Hc|reflexivity]. }
  unfold path_names at 2. rewrite (split_slash_segment device_id Hslash).
  simpl. rewrite Hne.
  assert (String.eqb device_id "." = false) as ->
    by now apply String.eqb_neq.
  reflexivity.
Qed.

Lemma profile_path_examples :
  profile_path "alice" = "sessions/alice"
  /\ profile_path "." = "sessions"
  /\ profile_path ".." = "sessions/.."
  /\ profile_path "a//b/./c/" = "sessions/a/b/c"
  /\ profile_path "/srv/data" = "/srv/data"
  /\ profile_path "//host/share" = "//host/share"
  /\ profile_path "///tmp" = "/tmp".
Proof. vm_compute. repeat split; reflexivity. Qed.

(** *** [get_or_create_bot] *)

Lemma get_or_create_bot_registered cfg gc now device_id force_new w :
  let r := get_or_create_bot cfg gc now device_id force_new w in
  bot_instances (snd r) !! device_id = Some (fst r).
Proof.
  unfold get_or_create_bot.
  destruct (if force_new then None else bot_instances w !! device_id) as [bot|] eqn:E.
  - destruct force_new; [discriminate|]. exact E.
  - unfold Bot.__init__. cbn [fst snd].
    destruct (bot_instances w !! device_id) as [old|];
      [rewrite release_registry|]; apply lookup_insert_eq.
Qed.

Lemma get_or_create_bot_registry cfg gc now device_id force_new w :
  bot_instances (snd (get_or_create_bot cfg gc now device_id force_new w))
  = <[device_id := fst (get_or_create_bot cfg gc now device_id force_new w)]>
      (bot_instances w).
Proof.
  unfold get_or_create_bot.
  destruct (if force_new then None else bot_instances w !! device_id) as [bot|] eqn:E.
  - destruct force_new; [discriminate|]. simpl. symmetry. now apply insert_id.
  - unfold Bot.__init__. cbn [fst snd].
    destruct (bot_instances w !! device_id) as [old|];
      [rewrite release_registry|]; reflexivity.
Qed.

Lemma get_or_create_bot_wf cfg gc now device_id force_new w :
  wf w -> wf (snd (get_or_create_bot cfg gc now device_id force_new w)).
Proof.
  intros Hwf d b Hreg.
  assert (length (heap w)
          <= length (heap (snd (get_or_create_bot cfg gc now device_id force_new w))))%nat
    as Hgrows.
  { unfold get_or_create_bot, Bot.__init__.
    destruct (if force_new then None else bot_instances w !! device_id);
      [simpl; lia|].
    cbn [fst snd]. destruct (bot_instances w !! device_id);
      [rewrite release_length|]; simpl; rewrite length_app; lia. }
  rewrite get_or_create_bot_registry in Hreg.
  destruct (decide (device_id = d)) as [->|Hne].
  - rewrite lookup_insert_eq in Hreg. injection Hreg as <-.
    unfold get_or_create_bot, Bot.__init__ in *.
    destruct (if force_new then None else bot_instances w !! d) as [bot|] eqn:E.
    + destruct force_new; [discriminate|]. simpl. now apply (Hwf d).
    + cbn [fst snd]. destruct (bot_instances w !! d);
        [rewrite release_length|]; simpl; rewrite length_app; simpl; lia.
  - rewrite lookup_insert_ne in Hreg by exact Hne. apply Hwf in Hreg. lia.
Qed.

(** Without [force_new] the collector is not consulted. *)
Lemma get_or_create_bot_default cfg gc gc' now device_id w :
  get_or_create_bot cfg gc now device_id false w
  = get_or_create_bot cfg gc' now device_id false w.
Proof.
  unfold get_or_create_bot. now destruct (bot_instances w !! device_id).
Qed.

(** A session that is created through the registry gets the constructor's
    default device id, whatever id it is registered under. *)
Lemma get_or_create_bot_fresh cfg gc now device_id (force_new : bool) (w : World) :
  bot_instances w !! device_id = None ->
  let r := get_or_create_bot cfg gc now device_id force_new w in
  fst r = length (heap w)
  /\ heap (snd r) !! fst r
     = Some (mkBot "default" (HEADLESS cfg) None "sessions/default"
               "qr_codes/default_qr.png" false "https://web.whatsapp.com/"
               (profile_path device_id) now).
Proof.
  intros E. unfold get_or_create_bot, Bot.__init__. rewrite E.
  destruct force_new; simpl;
    (split; [reflexivity|]);
    rewrite lookup_app_r by lia; now rewrite Nat.sub_diag.
Qed.

(** The reference that is returned points to an object of the store. *)
Lemma get_or_create_bot_valid cfg gc now device_id force_new w :
  wf w ->
  let r := get_or_create_bot cfg gc now device_id force_new w in
  exists self, heap (snd r) !! fst r = Some self.
Proof.
  intros Hwf r. apply lookup_lt_is_Some.
  apply (get_or_create_bot_wf cfg gc now device_id force_new w Hwf device_id).
  apply get_or_create_bot_registered.
Qed.



(** C3. Two sessions obtained through the registry for the device ids
    "alice" and "bob" are distinct objects, and both keep their scan-code
    image at [qr_codes/default_qr.png] and their session directory at
    [sessions/default]; only the [profile_dir] attribute carries the
    device id. *)
Theorem registry_sessions_share_qr_path :
  let alice := get_or_create_bot cfg unconsulted 100 "alice" false start in
  let bob := get_or_create_bot cfg unconsulted 200 "bob" false (snd alice) in
  let w := snd bob in
  fst alice <> fst bob
  /\ qr_code_path <$> heap w !! fst alice = Some "qr_codes/default_qr.png"
  /\ qr_code_path <$> heap w !! fst bob = Some "qr_codes/default_qr.png"
  /\ session_dir <$> heap w !! fst alice = Some "sessions/default"
  /\ session_dir <$> heap w !! fst bob = Some "sessions/default"
  /\ profile_dir <$> heap w !! fst alice = Some "sessions/alice"
  /\ profile_dir <$> heap w !! fst bob = Some "sessions/bob"
  /\ qr_code_path <$> heap w !! fst alice <> Some "qr_codes/alice_qr.png".
Proof. vm_compute. repeat split; (reflexivity || discriminate). Qed.

(** The browser of every such session is started on the profile below the
    shared session directory, not on [profile_dir]. *)
Lemma registry_sessions_share_browser_profile :
  let w1 := snd (App.initialize_session cfg None linked 100 "t1" "alice"
                   (installed start)) in
  let w2 := snd (App.initialize_session cfg None linked 200 "t2" "bob" w1) in
  trace (os w2)
  = [EvLaunch 0 "sessions/default/user_data"; EvGet "https://web.whatsapp.com/";
     EvLaunch 1 "sessions/default/user_data"; EvGet "https://web.whatsapp.com/"].
Proof. vm_compute. reflexivity. Qed.

(** The body of [get_or_create_bot] never calls [close]: as long as the
    replaced session is referenced from elsewhere, no browser is quit and
    no call is issued, with or without [force_new]. *)
Lemma get_or_create_bot_quits_nothing cfg gc now device_id force_new w :
  (forall old, bot_instances w !! device_id = Some old -> old ∈ held gc) ->
  let r := get_or_create_bot cfg gc now device_id force_new w in
  live (os (snd r)) = live (os w) /\ trace (os (snd r)) = trace (os w).
Proof.
  intros Hheld. unfold get_or_create_bot.
  destruct (if force_new then None else bot_instances w !! device_id);
    [split; reflexivity|].
  unfold Bot.__init__. cbn [fst snd].
  destruct (bot_instances w !! device_id) as [old|]; [|split; reflexivity].
  rewrite release_referenced by (left; now apply Hheld). split; reflexivity.
Qed.

(** When the registry held the only reference, the replaced session is
    finalized during the assignment: [close] runs on it after the registry
    has been given the new reference, and it runs on the old object only. *)
Lemma force_new_finalizes cfg gc now device_id w old self :
  wf w ->
  bot_instances w !! device_id = Some old ->
  heap w !! old = Some self ->
  old ∉ held gc ->
  (forall other, bot_instances w !! other = Some old -> other = device_id) ->
  let r := get_or_create_bot cfg gc now device_id true w in
  let stored := makedirs (profile_path device_id)
                  (makedirs "qr_codes" (makedirs "sessions/default" (os w))) in
  let closed := Bot.close (on_del gc) (self, stored) in
  fst r = length (heap w)
  /\ fst r <> old
  /\ bot_instances (snd r) = <[device_id := fst r]> (bot_instances w)
  /\ heap (snd r) !! old = Some (fst closed)
  /\ os (snd r) = snd closed.
Proof.
  intros Hwf Hreg Hself Hfree Honly r stored closed.
  pose proof (Hwf device_id old Hreg) as Hlt.
  subst r. unfold get_or_create_bot, Bot.__init__. rewrite Hreg. cbn [fst snd].
  split; [reflexivity|]. split; [lia|].
  unfold release, referenced. cbn [bot_instances].
  rewrite (bool_decide_eq_false_2 _ Hfree).
  rewrite (bool_decide_eq_false_2
             (old ∈ (map_img (<[device_id := length (heap w)]> (bot_instances w))
                     : gset nat))).
  2:{ intros [other Hother]%elem_of_map_img.
      destruct (decide (device_id = other)) as [->|Hne].
      - rewrite lookup_insert_eq in Hother. injection Hother as Heq. lia.
      - rewrite lookup_insert_ne in Hother by exact Hne.
        apply Honly in Hother. congruence. }
  cbn [orb]. unfold method. cbn [heap os].
  rewrite (lookup_app_l_Some _ _ _ _ Hself). unfold Bot.__del__.
  subst closed stored.
  destruct (Bot.close (on_del gc) _) as [self' o] eqn:Hclose.
  cbn [fst snd bot_instances heap os].
  split; [reflexivity|]. split; [|reflexivity].
  apply list_lookup_insert_eq. rewrite length_app. lia.
Qed.


(** The same replacement by a caller that kept no reference: the finalizer
    quits the old browser, after the registry has been written. *)
Lemma force_new_sole_reference :
  let w1 := snd (App.initialize_session cfg None linked 100 "t1" "alice"
                   (installed start)) in
  let replaced := get_or_create_bot cfg (mkCollector ∅ quiet) 200 "alice" true w1 in
  let w2 := snd replaced in
  map_to_list (bot_instances w2) = [("alice", 1%nat)]
  /\ driver <$> heap w2 !! 0%nat = Some None
  /\ live (os w2) = ∅
  /\ trace (os w2) = trace (os w1) ++ [EvQuit 0].
Proof. vm_compute. repeat split; reflexivity. Qed.

End RegistryFacts.

(** ** Methods of the session object *)

Section MethodRules.
Import Py App.

Context (R : state -> state -> Prop).
Hypothesis R_refl : forall st, R st st.
Hypothesis R_trans : forall a b c, R a b -> R b c -> R a c.

Lemma triple_ret {A} (Q : A -> Prop) (a : A) : Q a -> triple R Q (ret a).
Proof. intros Ha st. split; [apply R_refl|]. simpl. now intros ? [= <-]. Qed.

Lemma triple_raise {A} (Q : A -> Prop) (msg : string) : triple R Q (raise msg).
Proof. intros st. split; [apply R_refl|]. simpl. discriminate. Qed.

Lemma triple_bind {A B} (P : A -> Prop) (Q : B -> Prop) (m : M A) (k : A -> M B) :
  triple R P m -> (forall a, P a -> triple R Q (k a)) -> triple R Q (bind m k).
Proof.
  intros Hm Hk st. unfold bind. destruct (Hm st) as [HR HP].
  destruct (m st) as [[msg|a] st']; simpl in *.
  - split; [exact HR|discriminate].
  - destruct (Hk a (HP a eq_refl) st') as [HR' HQ].
    split; [eapply R_trans; eassumption|exact HQ].
Qed.

Lemma triple_weaken {A} (P Q : A -> Prop) (m : M A) :
  triple R P m -> (forall a, P a -> Q a) -> triple R Q m.
Proof. intros Hm HPQ st. destruct (Hm st) as [HR HP]. split; auto. Qed.

Lemma triple_try_except {A} (Q : A -> Prop) (m : M A) (h : string -> M A) :
  triple R Q m -> (forall msg, triple R Q (h msg)) -> triple R Q (try_except m h).
Proof.
  intros Hm Hh st. unfold try_except. destruct (Hm st) as [HR HQ].
  destruct (m st) as [[msg|a] st']; simpl in *.
  - destruct (Hh msg st') as [HR' HQ'].
    split; [eapply R_trans; eassumption|exact HQ'].
  - split; [exact HR|exact HQ].
Qed.

Lemma triple_get_self : triple R any get_self.
Proof. intros st. split; [apply R_refl|]. now intros. Qed.

Lemma triple_get_os : triple R any get_os.
Proof. intros st. split; [apply R_refl|]. now intros. Qed.

Lemma triple_modify_self (f : WhatsAppBot -> WhatsAppBot) :
  (forall st, R st (f (fst st), snd st)) -> triple R any (modify_self f).
Proof. intros Hf st. split; [apply Hf|]. now intros. Qed.

Lemma triple_modify_os (f : OS -> OS) :
  (forall st, R st (fst st, f (snd st))) -> triple R any (modify_os f).
Proof. intros Hf st. split; [apply Hf|]. now intros. Qed.

Lemma triple_lift_total {A} (Q : A -> Prop) (f : state -> A * state) :
  (forall st, R st (snd (f st)) /\ Q (fst (f st))) -> triple R Q (lift_total f).
Proof.
  intros Hf st. unfold lift_total. destruct (Hf st) as [HR HQ].
  destruct (f st) as [a st']. simpl in *. split; [exact HR|]. now intros ? [= <-].
Qed.

Lemma triple_run_total {A} (Q : A -> Prop) (m : M A) (h : string -> A) :
  triple R Q m -> (forall msg, Q (h msg)) ->
  forall st, R st (snd (run_total m h st)) /\ Q (fst (run_total m h st)).
Proof.
  intros Hm Hh st. unfold run_total. destruct (Hm st) as [HR HQ].
  destruct (m st) as [[msg|a] st']; simpl in *; split; auto.
Qed.

End MethodRules.

Section SessionMethods.
Import Py App.

Lemma same_attributes_refl (st : state) : same_attributes st st.
Proof. repeat split. Qed.

Lemma same_attributes_trans (a b c : state) :
  same_attributes a b -> same_attributes b c -> same_attributes a c.
Proof.
  unfold same_attributes. intros (?&?&?&?&?) (?&?&?&?&?).
  repeat split; congruence.
Qed.

Ltac triple_step :=
  lazymatch goal with
  | |- triple _ _ (ret _) =>
      apply triple_ret; [apply same_attributes_refl | try exact I; try reflexivity]
  | |- triple _ _ (raise _) => apply triple_raise, same_attributes_refl
  | |- triple _ _ (bind _ _) =>
      eapply (triple_bind _ same_attributes_trans any); [| intros ? _]
  | |- triple _ _ (try_except _ _) =>
      apply (triple_try_except _ same_attributes_trans); [| intros ?]
  | |- triple _ _ get_self => apply triple_get_self, same_attributes_refl
  | |- triple _ _ get_os => apply triple_get_os, same_attributes_refl
  | |- triple _ _ (modify_self _) =>
      apply triple_modify_self; intros [? ?]; repeat split
  | |- triple _ _ (modify_os _) =>
      apply triple_modify_os; intros [? ?]; repeat split
  | |- triple _ _ (match ?x with _ => _ end) => destruct x
  end.

Ltac triple_auto := repeat triple_step.

Lemma driver_get_attributes outcome url :
  triple same_attributes any (driver_get outcome url).
Proof. unfold driver_get. triple_auto. Qed.

Lemma wait_until_attributes p : triple same_attributes any (wait_until p).
Proof. unfold wait_until. triple_auto. Qed.

Lemma check_authentication_attributes p :
  triple same_attributes any (_check_authentication p).
Proof.
  unfold _check_authentication. triple_step; [apply wait_until_attributes|].
  triple_auto.
Qed.

Lemma save_qr_code_attributes saved :
  triple same_attributes any (_save_qr_code saved).
Proof. unfold _save_qr_code. triple_auto. Qed.

Lemma wait_for_authentication_attributes polls :
  triple same_attributes any (_wait_for_authentication polls).
Proof.
  unfold _wait_for_authentication. triple_step; [|triple_auto].
  induction polls as [|p rest IH]; simpl; [triple_auto|].
  triple_step; [apply check_authentication_attributes|].
  triple_step; [triple_auto|exact IH].
Qed.

Lemma launch_chrome_attributes user_data_dir :
  triple same_attributes any (launch_chrome user_data_dir).
Proof. unfold launch_chrome. triple_auto. Qed.

Lemma setup_driver_attributes e : triple same_attributes any (_setup_driver e).
Proof.
  unfold _setup_driver. triple_step; [|triple_auto].
  triple_step; [triple_auto|].
  triple_step; [triple_auto|].
  triple_step; [triple_auto|].
  triple_step; [triple_auto|].
  triple_step; [triple_auto|].
  triple_step; (triple_step; [apply launch_chrome_attributes|triple_auto])
               || triple_auto.
Qed.

Lemma initialize_session_body_spec e :
  triple same_attributes nonempty_dict (initialize_session_body e).
Proof.
  unfold initialize_session_body.
  triple_step; [apply setup_driver_attributes|].
  triple_step; [triple_auto|].
  triple_step; [triple_auto|].
  triple_step; [apply driver_get_attributes|].
  triple_step; [apply check_authentication_attributes|].
  triple_step; [triple_auto|].
  triple_step; [apply wait_until_attributes|].
  triple_step.
  - triple_step; [apply save_qr_code_attributes|].
    triple_step; [apply wait_for_authentication_attributes|].
    triple_auto.
  - triple_step; [apply check_authentication_attributes|].
    triple_auto.
Qed.

Lemma initialize_session_spec e st :
  same_attributes st (snd (Bot.initialize_session e st))
  /\ nonempty_dict (fst (Bot.initialize_session e st)).
Proof.
  apply (triple_run_total _ _ _ _ (initialize_session_body_spec e)).
  reflexivity.
Qed.

Lemma reinitialize_spec e : triple same_attributes early_ok (reinitialize e).
Proof.
  unfold reinitialize.
  eapply (triple_bind _ same_attributes_trans nonempty_dict).
  - apply triple_lift_total, initialize_session_spec.
  - intros init_result Hne.
    destruct (negb (truthy (dict_get "success" init_result)));
      apply triple_ret; try apply same_attributes_refl.
    + now intros ? [= <-].
    + discriminate.
Qed.

Lemma ensure_driver_spec e : triple same_attributes early_ok (ensure_driver e).
Proof.
  unfold ensure_driver. triple_step; [triple_auto|].
  triple_step; [|apply reinitialize_spec].
  apply triple_ret; [apply same_attributes_refl|discriminate].
Qed.

Lemma ensure_authenticated_spec e :
  triple same_attributes early_ok (ensure_authenticated e).
Proof.
  unfold ensure_authenticated. triple_step; [triple_auto|].
  triple_step.
  - apply triple_ret; [apply same_attributes_refl|discriminate].
  - triple_step; [apply check_authentication_attributes|].
    triple_step; [|apply reinitialize_spec].
    apply triple_ret; [apply same_attributes_refl|discriminate].
Qed.

Lemma send_media_attributes sent path :
  triple same_attributes any (_send_media sent path).
Proof. unfold _send_media. triple_auto. Qed.

Lemma send_text_message_attributes sent text :
  triple same_attributes any (_send_text_message sent text).
Proof. unfold _send_text_message. triple_auto. Qed.

Lemma dispatch_spec e phone_number message media_path :
  triple same_attributes nonempty_dict (dispatch e phone_number message media_path).
Proof.
  unfold dispatch.
  triple_step; [apply driver_get_attributes|].
  triple_step; [apply wait_until_attributes|].
  triple_step; [triple_auto|].
  triple_step; [triple_auto|].
  triple_step.
  - destruct media_path as [path|]; [|triple_auto].
    triple_step; [|triple_auto].
    triple_step; [apply send_media_attributes|triple_auto].
  - destruct message as [text|]; [|triple_auto].
    triple_step; [|triple_auto].
    triple_step; [apply send_text_message_attributes|triple_auto].
Qed.

Lemma send_message_body_spec e phone_number message media_path :
  triple same_attributes nonempty_dict
    (send_message_body e phone_number message media_path).
Proof.
  unfold send_message_body.
  eapply (triple_bind _ same_attributes_trans early_ok);
    [apply ensure_driver_spec|].
  intros [init_result|] Hearly.
  { apply triple_ret; [apply same_attributes_refl|now apply Hearly]. }
  eapply (triple_bind _ same_attributes_trans early_ok);
    [apply ensure_authenticated_spec|].
  intros [init_result|] Hearly'.
  { apply triple_ret; [apply same_attributes_refl|now apply Hearly']. }
  apply dispatch_spec.
Qed.

Lemma send_message_spec e phone_number message media_path st :
  same_attributes st (snd (Bot.send_message e phone_number message media_path st))
  /\ nonempty_dict (fst (Bot.send_message e phone_number message media_path st)).
Proof.
  apply (triple_run_total _ _ _ _
           (send_message_body_spec e phone_number message media_path)).
  reflexivity.
Qed.

(** [send_message] never writes [last_activity]: after every call,
    successful or not, the attribute still holds the time at which the
    session object was constructed. *)
Lemma send_message_keeps_last_activity e phone_number message media_path st :
  last_activity (fst (snd (Bot.send_message e phone_number message media_path st)))
  = last_activity (fst st).
Proof. apply send_message_spec. Qed.

(** C2. A session constructed at time 100 sends a message successfully;
    the call takes time (it launches the browser and loads two pages), and
    [last_activity] is 100 before and after, so it was not refreshed.
    Whenever that send took place, the sweep at time 1901 counts the
    session as idle for longer than the 30 minutes of the timeout. *)
Theorem send_message_success_stale_activity :
  let run := Bot.send_message Scenario.all_fine "9876543210" (Some "hello") None
               Scenario.fresh in
  fst run = success_dict
  /\ last_activity (fst Scenario.fresh) = 100
  /\ last_activity (fst (snd run)) = 100
  /\ ~ activity_refreshed Scenario.fresh (snd run)
  /\ App.timeout_seconds Scenario.cfg = 1800
  /\ App.too_old Scenario.cfg 1901 (fst (snd run)) = true.
Proof.
  vm_compute. repeat split; try reflexivity. discriminate.
Qed.

(** *** The media step and the text step *)

Lemma always_refl (st : state) : always st st.
Proof. exact I. Qed.

Lemma always_trans (a b c : state) : always a b -> always b c -> always a c.
Proof. intros _ _. exact I. Qed.

Lemma reinitialize_failed e : triple always early_failed (reinitialize e).
Proof.
  unfold reinitialize.
  eapply (triple_bind _ always_trans any).
  - apply triple_lift_total. intros st. split; exact I.
  - intros init_result _.
    destruct (negb (truthy (dict_get "success" init_result))) eqn:E;
      apply triple_ret; try apply always_refl.
    + intros ? [= <-]. now apply negb_true_iff in E.
    + discriminate.
Qed.

Lemma prelude_failed (m : M (option (list (string * pyval)))) :
  m = ret None -> triple always early_failed m.
Proof. intros ->. apply triple_ret; [apply always_refl|discriminate]. Qed.

Lemma ensure_driver_failed e : triple always early_failed (ensure_driver e).
Proof.
  unfold ensure_driver.
  eapply (triple_bind _ always_trans any);
    [apply triple_get_self, always_refl|].
  intros self _. destruct (driver self).
  - now apply prelude_failed.
  - apply reinitialize_failed.
Qed.

Lemma ensure_authenticated_failed e :
  triple always early_failed (ensure_authenticated e).
Proof.
  unfold ensure_authenticated.
  eapply (triple_bind _ always_trans any);
    [apply triple_get_self, always_refl|].
  intros self _. destruct (is_authenticated self); [now apply prelude_failed|].
  eapply (triple_bind _ always_trans any).
  - intros st. split; [exact I|]. now intros.
  - intros authenticated _. destruct authenticated.
    + now apply prelude_failed.
    + apply reinitialize_failed.
Qed.

Ltac run_dispatch :=
  unfold dispatch, driver_get, _wait_for_chat_to_load, wait_until, _send_media,
    _send_text_message, bind, ret, raise, get_self, get_os, modify_os,
    exists_path, log;
  simpl.

Lemma dispatch_failed e phone_number text media_path :
  text_sent e = false ->
  str_nonempty text = true ->
  triple always failed (dispatch e phone_number (Some text) media_path).
Proof.
  intros Hsent Htext st. split; [exact I|].
  intros result. destruct st as [[did hl drv sd qr auth url pd la] o].
  run_dispatch. rewrite Hsent, Htext.
  destruct drv as [h|]; simpl; [|discriminate].
  destruct (open_chat e); simpl; [discriminate|].
  destruct (chat_load e); simpl; try discriminate; [|now intros [= <-]].
  destruct media_path as [path|]; simpl.
  - destruct (str_nonempty path && bool_decide (path ∈ files o)); simpl;
      now intros [= <-].
  - now intros [= <-].
Qed.

Lemma send_message_body_failed e phone_number text media_path :
  text_sent e = false ->
  str_nonempty text = true ->
  triple always failed (send_message_body e phone_number (Some text) media_path).
Proof.
  intros Hsent Htext. unfold send_message_body.
  eapply (triple_bind _ always_trans early_failed);
    [apply ensure_driver_failed|].
  intros [init_result|] Hearly.
  { apply triple_ret; [apply always_refl|now apply Hearly]. }
  eapply (triple_bind _ always_trans early_failed);
    [apply ensure_authenticated_failed|].
  intros [init_result|] Hearly'.
  { apply triple_ret; [apply always_refl|now apply Hearly']. }
  now apply dispatch_failed.
Qed.

Lemma dispatch_skips_missing_media e phone_number message path st :
  exists_path path (snd st) = false ->
  dispatch e phone_number message (Some path) st
  = dispatch e phone_number message None st.
Proof.
  intros Hmissing. destruct st as [[did hl drv sd qr auth url pd la] o].
  unfold exists_path in Hmissing. simpl in Hmissing.
  run_dispatch.
  destruct drv as [h|]; simpl; [|reflexivity].
  destruct (open_chat e); simpl; [reflexivity|].
  destruct (chat_load e); simpl; try reflexivity.
  now rewrite Hmissing, andb_false_r.
Qed.

Lemma dispatch_text_only_files e phone_number message st :
  files (snd (snd (dispatch e phone_number message None st))) = files (snd st).
Proof.
  destruct st as [[did hl drv sd qr auth url pd la] o].
  run_dispatch.
  destruct drv as [h|]; simpl; [|reflexivity].
  destruct (open_chat e); simpl; [reflexivity|].
  destruct (chat_load e); simpl; try reflexivity.
  destruct message as [text|]; simpl; [|reflexivity].
  destruct (str_nonempty text); simpl; [|reflexivity].
  now destruct (text_sent e).
Qed.

Lemma dispatch_media_answer_ignored sent e phone_number message media_path st :
  dispatch (with_media_sent sent e) phone_number message media_path st
  = dispatch e phone_number message media_path st.
Proof.
  destruct st as [[did hl drv sd qr auth url pd la] o].
  run_dispatch.
  destruct drv as [h|]; simpl; [|reflexivity].
  destruct (open_chat e); simpl; [reflexivity|].
  destruct (chat_load e); simpl; try reflexivity.
  destruct media_path as [path|]; simpl; [|reflexivity].
  destruct (str_nonempty path && bool_decide (path ∈ files o)); reflexivity.
Qed.

(** A call on a linked session with a running browser whose chat loads. *)
Lemma send_message_ready e phone_number text path (st : state) h :
  driver (fst st) = Some h ->
  is_authenticated (fst st) = true ->
  open_chat e = None ->
  chat_load e = Present ->
  str_nonempty text = true ->
  str_nonempty path = true ->
  let run := Bot.send_message e phone_number (Some text) (Some path) st in
  let chat_url :=
    "https://web.whatsapp.com/send?phone=" +:+ Phone.normalize_phone phone_number in
  (exists_path path (snd st) = false ->
     trace (snd (snd run)) = trace (snd st) ++ [EvGet chat_url; EvSendText text])
  /\ (exists_path path (snd st) = true ->
       trace (snd (snd run))
       = trace (snd st) ++ [EvGet chat_url; EvSendMedia path; EvSendText text])
  /\ fst run = (if text_sent e then success_dict
               else failure_dict "Failed to send text message").
Proof.
  intros Hdrv Hauth Hopen Hload Htext Hpath run chat_url.
  subst run.
  destruct st as [[did hl drv sd qr auth url pd la] o]. simpl in Hdrv, Hauth.
  subst drv auth.
  unfold Bot.send_message, run_total, send_message_body, ensure_driver,
    ensure_authenticated.
  run_dispatch. rewrite Hopen, Hload, Htext, Hpath. simpl.
  destruct (bool_decide (path ∈ files o)), (text_sent e), (media_sent e); simpl;
    rewrite <- ?app_assoc; simpl;
    repeat match goal with
           | |- _ /\ _ => split
           | |- true = false -> _ => discriminate
           | |- false = true -> _ => discriminate
           | |- _ = _ -> _ => intros _
           end; reflexivity.
Qed.

(** C8. A send with a text and a media path.
    - If the path does not exist the call is the same as one without a
      media path: same result, same calls made.
    - The answer of the media step changes nothing: the call goes on in
      the same way whether the media send worked or not.
    - If the text send fails the result is a failure, also when the media
      send worked.
    - On a linked session with a running browser whose chat loads, the
      text is attempted after the media step (which runs only when the
      path exists), and the result is success exactly when the text send
      worked, else "Failed to send text message". *)
Theorem send_message_media_then_text e phone_number text path (st : state) :
  str_nonempty text = true ->
  str_nonempty path = true ->
  let run := Bot.send_message e phone_number (Some text) (Some path) st in
  let text_only := Bot.send_message e phone_number (Some text) None st in
  let chat_url :=
    "https://web.whatsapp.com/send?phone=" +:+ Phone.normalize_phone phone_number in
  (exists_path path (snd (snd text_only)) = false -> run = text_only)
  /\ (forall sent,
        Bot.send_message (with_media_sent sent e) phone_number (Some text)
          (Some path) st = run)
  /\ (text_sent e = false -> truthy (dict_get "success" (fst run)) = false)
  /\ (forall h,
        driver (fst st) = Some h ->
        is_authenticated (fst st) = true ->
        open_chat e = None ->
        chat_load e = Present ->
        (exists_path path (snd st) = false ->
           trace (snd (snd run)) = trace (snd st) ++ [EvGet chat_url; EvSendText text])
        /\ (exists_path path (snd st) = true ->
             trace (snd (snd run))
             = trace (snd st) ++ [EvGet chat_url; EvSendMedia path; EvSendText text])
        /\ fst run = (if text_sent e then success_dict
                     else failure_dict "Failed to send text message")).
Proof.
  intros Htext Hpath run text_only chat_url. subst run text_only.
  split; [|split; [|split]].
  - unfold Bot.send_message, run_total, send_message_body, bind.
    destruct (ensure_driver e st) as [[msg|[init_result|]] st1];
      try (intros _; reflexivity).
    destruct (ensure_authenticated e st1) as [[msg|[init_result|]] st2];
      try (intros _; reflexivity).
    intros Hmissing.
    rewrite dispatch_skips_missing_media; [reflexivity|].
    unfold exists_path in *.
    rewrite <- (dispatch_text_only_files e phone_number (Some text) st2).
    destruct (dispatch e phone_number (Some text) None st2) as [[msg|result] st3];
      exact Hmissing.
  - intros sent.
    unfold Bot.send_message, run_total, send_message_body, bind.
    change (ensure_driver (with_media_sent sent e)) with (ensure_driver e).
    destruct (ensure_driver e st) as [[msg|[init_result|]] st1]; try reflexivity.
    change (ensure_authenticated (with_media_sent sent e))
      with (ensure_authenticated e).
    destruct (ensure_authenticated e st1) as [[msg|[init_result|]] st2];
      try reflexivity.
    now rewrite dispatch_media_answer_ignored.
  - intros Hsent.
    apply (triple_run_total always failed _ failure_dict
             (send_message_body_failed e phone_number text (Some path) Hsent Htext)).
    reflexivity.
  - intros h Hdrv Hauth Hopen Hload.
    apply (send_message_ready e phone_number text path st h); assumption.
Qed.

Lemma send_message_media_then_text_witness :
  let run := Bot.send_message Scenario.text_fails "9876543210" (Some "hello")
               (Some "media/photo.png") Scenario.ready in
  let missing := Bot.send_message Scenario.all_fine "9876543210" (Some "hello")
                   (Some "media/missing.png") Scenario.ready in
  (truthy (dict_get "success" (fst run)) = false
   /\ trace (snd (snd run))
      = trace (snd Scenario.ready)
        ++ [EvGet ("https://web.whatsapp.com/send?phone="
                   +:+ Phone.normalize_phone "9876543210");
            EvSendMedia "media/photo.png"; EvSendText "hello"]
   /\ fst run = failure_dict "Failed to send text message")
  /\ (missing = Bot.send_message Scenario.all_fine "9876543210" (Some "hello")
                  None Scenario.ready
      /\ trace (snd (snd missing))
         = trace (snd Scenario.ready)
           ++ [EvGet ("https://web.whatsapp.com/send?phone="
                      +:+ Phone.normalize_phone "9876543210");
               EvSendText "hello"]
      /\ fst missing = success_dict).
Proof.
  split.
  - destruct (send_message_media_then_text Scenario.text_fails "9876543210"
                "hello" "media/photo.png" Scenario.ready eq_refl eq_refl)
      as (_ & _ & Hfail & Hready).
    destruct (Hready 0%nat) as (_ & Htrace & Hres);
      try (vm_compute; reflexivity).
    split; [exact (Hfail eq_refl)|].
    split; [apply Htrace; vm_compute; reflexivity|exact Hres].
  - destruct (send_message_media_then_text Scenario.all_fine "9876543210"
                "hello" "media/missing.png" Scenario.ready eq_refl eq_refl)
      as (Hskip & _ & _ & Hready).
    destruct (Hready 0%nat) as (Htrace & _ & Hres);
      try (vm_compute; reflexivity).
    split; [apply Hskip; vm_compute; reflexivity|].
    split; [apply Htrace; vm_compute; reflexivity|exact Hres].
Defined.

(** *** [close] *)

Lemma not_elem_of_remove `{Countable K} (x : K) (X : gset K) : x ∉ X ∖ {[x]}.
Proof.
  rewrite elem_of_difference, elem_of_singleton. intros [_ Hne]. now apply Hne.
Qed.

Lemma close_without_driver e self o :
  driver self = None -> Bot.close e (self, o) = (self, o).
Proof.
  intros Hdrv. unfold Bot.close, run_total, close_body, bind, get_self. simpl.
  now rewrite Hdrv.
Qed.

(** The three ways [close] can go. *)
Lemma close_cases e self o :
  (driver self = None /\ Bot.close e (self, o) = (self, o))
  \/ (exists h, driver self = Some h /\ is_Some (quit_raises e)
        /\ Bot.close e (self, o) = (self, log (EvQuit h) o))
  \/ (exists h, driver self = Some h /\ quit_raises e = None
        /\ fst (Bot.close e (self, o)) = set_is_authenticated false (set_driver None self)
        /\ live (snd (Bot.close e (self, o))) = live o ∖ {[h]}
        /\ trace (snd (Bot.close e (self, o))) = trace o ++ [EvQuit h]).
Proof.
  destruct (driver self) as [h|] eqn:Hdrv.
  - right.
    unfold Bot.close, run_total, close_body, bind, get_self, get_os, modify_os,
      modify_self, ret, raise, exists_path, log.
    simpl. rewrite Hdrv. destruct (quit_raises e) as [msg|] eqn:Hquit; simpl.
    + left. exists h. split; [reflexivity|]. split; [now exists msg|].
      now destruct self.
    + right. exists h. split; [reflexivity|]. split; [reflexivity|].
      destruct (bool_decide (qr_code_path self ∈ files o)); simpl;
        [destruct (remove_raises e); simpl|]; repeat split; reflexivity.
  - left. split; [reflexivity|]. now apply close_without_driver.
Qed.

(** C9 (as the code has it). [close] acts only on a session that has a
    driver handle. Without one it changes nothing. With one, [quit] is
    called, and when it returns the handle is cleared, [is_authenticated]
    is false and the browser is gone; if the removal of the scan-code image
    does not raise either, the image does not exist afterwards. A further
    [close] after one that left the handle cleared changes nothing. *)
Theorem close_spec (e e' : CloseEnv) (st : state) :
  let after := Bot.close e st in
  (driver (fst st) = None -> after = st)
  /\ (forall h, driver (fst st) = Some h -> quit_raises e = None ->
        driver (fst after) = None
        /\ is_authenticated (fst after) = false
        /\ (h ∉ live (snd after))
        /\ trace (snd after) = trace (snd st) ++ [EvQuit h]
        /\ (remove_raises e = None ->
            qr_code_path (fst st) ∉ files (snd after)))
  /\ (driver (fst after) = None -> Bot.close e' after = after).
Proof.
  destruct st as [self o]. intros after. simpl fst. simpl snd.
  split; [apply close_without_driver|].
  split.
  - intros h Hdrv Hquit. subst after.
    unfold Bot.close, run_total, close_body, bind, get_self, get_os, modify_os,
      modify_self, ret, raise, exists_path, log.
    simpl. rewrite Hdrv, Hquit. simpl.
    destruct (bool_decide (qr_code_path self ∈ files o)) eqn:Hex; simpl.
    + destruct (remove_raises e) as [msg|]; simpl;
        (split; [reflexivity|]); (split; [reflexivity|]);
        (split; [apply not_elem_of_remove|]); (split; [reflexivity|]).
      * discriminate.
      * intros _. apply not_elem_of_remove.
    + split; [reflexivity|]. split; [reflexivity|].
      split; [apply not_elem_of_remove|]. split; [reflexivity|].
      intros _. now apply bool_decide_eq_false in Hex.
  - intros Hnone. destruct after as [self' o'] eqn:E.
    now apply close_without_driver.
Qed.

Lemma close_spec_witness :
  let after := Bot.close Scenario.quiet Scenario.ready in
  (driver (fst after) = None
   /\ is_authenticated (fst after) = false
   /\ (qr_code_path (fst Scenario.ready) ∉ files (snd after))
   /\ Bot.close Scenario.quiet after = after)
  /\ Bot.close Scenario.quiet Scenario.fresh = Scenario.fresh.
Proof.
  split.
  - destruct (close_spec Scenario.quiet Scenario.quiet Scenario.ready)
      as (_ & Hquit & Hidem).
    destruct (Hquit 0%nat) as (Hnone & Hauth & _ & _ & Hgone);
      try (vm_compute; reflexivity).
    split; [exact Hnone|]. split; [exact Hauth|].
    split; [exact (Hgone eq_refl)|exact (Hidem Hnone)].
  - apply (close_spec Scenario.quiet Scenario.quiet Scenario.fresh).
    vm_compute. reflexivity.
Defined.

(** C9, counterexample. A session that was never launched, with a
    scan-code image on disk at its [qr_code_path]: [close] returns and the
    image is still there. *)
Lemma close_without_driver_keeps_image :
  let after := Bot.close Scenario.quiet Scenario.fresh_with_image in
  driver (fst Scenario.fresh_with_image) = None
  /\ exists_path (qr_code_path (fst Scenario.fresh_with_image))
       (snd Scenario.fresh_with_image) = true
  /\ exists_path (qr_code_path (fst after)) (snd after) = true.
Proof. vm_compute. repeat split; reflexivity. Qed.

End SessionMethods.

Section SendValues.
Import Py Bot.

(** On a [str] and a text (or no text) the method on any values is
    [send_message]: same result, same final state, and it does not raise. *)
Lemma dispatch_values_str e phone_number message st :
  dispatch_values e (PyStr phone_number) (of_option_str message) st
  = dispatch e phone_number message None st.
Proof.
  unfold dispatch_values, dispatch, lift_sum, log_phone, clean_phone_of,
    slice_raises, bind, ret, get_os.
  change (Phone.with_country_code (Phone.join_filter Phone.isdigit phone_number))
    with (Phone.normalize_phone phone_number).
  destruct (driver_get (open_chat e) _ st) as [[msg|[]] st1]; [reflexivity|].
  destruct (_wait_for_chat_to_load (chat_load e) st1) as [[msg|loaded] st2];
    [reflexivity|].
  destruct loaded; simpl; [|reflexivity].
  destruct message as [text|]; simpl; [|reflexivity].
  now destruct (str_nonempty text).
Qed.

Lemma send_message_values_str e phone_number message st :
  send_message_values e (PyStr phone_number) (of_option_str message) st
  = (inr (fst (Bot.send_message e phone_number message None st)),
     snd (Bot.send_message e phone_number message None st)).
Proof.
  unfold send_message_values, Bot.send_message, try_except, run_total,
    send_message_values_body, send_message_body, bind.
  destruct (ensure_driver e st) as [[msg|[init_result|]] st1];
    try reflexivity.
  destruct (ensure_authenticated e st1) as [[msg|[init_result|]] st2];
    try reflexivity.
  rewrite dispatch_values_str.
  now destruct (dispatch e phone_number message None st2) as [[msg|result] st3].
Qed.

End SendValues.

(** ** The routes *)

Section RouteFacts.
Import Py App Scenario.

(** The route on a body whose [phone] and [message] are non-empty
    strings. *)
Lemma send_message_handler_strings cfg env now timestamp device_id items
    phone message w :
  dict_get "phone" items = PyStr phone ->
  dict_get "message" items = PyStr message ->
  str_nonempty phone = true ->
  str_nonempty message = true ->
  send_message_handler cfg env now timestamp device_id (PyDict items) w
  = let failed (msg : string) :=
      jsonify_status
        [("success", PyBool false); ("error", PyStr msg);
         ("device_id", PyStr device_id); ("timestamp", PyStr timestamp)] 500 in
    let (bot, w) := get_or_create_bot cfg unconsulted now device_id false w in
    match method bot (Bot.send_message env phone (Some message) None) w with
    | (inr success, w) =>
        if truthy (PyDict success)
        then (jsonify [("success", PyBool true);
                       ("device_id", PyStr device_id);
                       ("phone", PyStr phone);
                       ("timestamp", PyStr timestamp)], w)
        else (failed "Failed to send message", w)
    | (inl msg, w) => (failed msg, w)
    end.
Proof.
  intros Hphone Hmessage Hp Hm. unfold send_message_handler.
  assert (truthy (PyDict items) = true) as ->.
  { destruct items; [discriminate Hphone|reflexivity]. }
  rewrite Hphone, Hmessage. simpl. rewrite Hp, Hm. simpl.
  destruct (get_or_create_bot cfg unconsulted now device_id false w) as [bot w1].
  unfold method. destruct (heap w1 !! bot) as [self|]; [|reflexivity].
  pose proof (send_message_values_str env phone (Some message) (self, os w1))
    as Hstr.
  cbn [of_option_str] in Hstr. rewrite Hstr.
  destruct (Bot.send_message env phone (Some message) None (self, os w1))
    as [success [self' o']].
  reflexivity.
Qed.

(** For every environment, a request whose phone number and message are
    non-empty strings is answered with status 200 and [success: true]; the
    branch that answers 500 with "Failed to send message" is never taken,
    because the value tested is the result dict, and that dict is never
    empty. *)
Lemma send_message_handler_always_success cfg env now timestamp device_id
    items phone message w :
  wf w ->
  dict_get "phone" items = PyStr phone ->
  dict_get "message" items = PyStr message ->
  str_nonempty phone = true ->
  str_nonempty message = true ->
  fst (send_message_handler cfg env now timestamp device_id (PyDict items) w)
  = jsonify [("success", PyBool true); ("device_id", PyStr device_id);
             ("phone", PyStr phone); ("timestamp", PyStr timestamp)].
Proof.
  intros Hwf Hphone Hmessage Hp Hm.
  rewrite (send_message_handler_strings cfg env now timestamp device_id items
             phone message w Hphone Hmessage Hp Hm).
  pose proof (get_or_create_bot_valid cfg unconsulted now device_id false w Hwf)
    as Hvalid.
  destruct (get_or_create_bot cfg unconsulted now device_id false w) as [bot w1].
  simpl in Hvalid. destruct Hvalid as [self Hself].
  unfold method. rewrite Hself.
  pose proof (send_message_spec env phone (Some message) None (self, os w1))
    as [_ Hne].
  destruct (Bot.send_message env phone (Some message) None (self, os w1))
    as [success [self' o']].
  simpl in Hne. unfold nonempty_dict in Hne. simpl in Hne |- *.
  now rewrite Hne.
Qed.

(** C1. The chat of a freshly created session never becomes ready: the
    session's [send_message] returns the failure result "Failed to load
    chat interface", and the route answers that request with status 200
    and [success: true]. *)
Theorem send_route_reports_failed_send_as_success :
  let w := installed start in
  let created := get_or_create_bot cfg unconsulted 100 "default" false w in
  let sent := Bot.send_message chat_stuck "9876543210" (Some "hello") None fresh in
  let answer := App.send_message cfg None chat_stuck 100 "2026-01-01T00:00:00"
                  "default" (body_of "9876543210" "hello") w in
  heap (snd created) !! fst created = Some (fst fresh)
  /\ os (snd created) = snd fresh
  /\ fst sent = failure_dict "Failed to load chat interface"
  /\ dict_get "success" (fst sent) = PyBool false
  /\ fst answer
     = mkResponse 200
         (Json [("success", PyBool true); ("device_id", PyStr "default");
                ("phone", PyStr "9876543210");
                ("timestamp", PyStr "2026-01-01T00:00:00")]).
Proof. vm_compute. repeat split; reflexivity. Qed.

(** The scan-code route never serves a file: [get_qr_code_path] hands a
    [str] (or [None]) to the route, and the route calls [.exists()] on it. *)
Lemma get_qr_code_never_serves cfg provided_key now device_id w path :
  body (fst (App.get_qr_code cfg provided_key now device_id w)) <> File path.
Proof.
  unfold App.get_qr_code, require_api_key.
  assert (body (fst (get_qr_code_handler cfg now device_id w)) <> File path)
    as Hhandler.
  { unfold get_qr_code_handler.
    destruct (get_or_create_bot cfg unconsulted now device_id false w) as [bot w1].
    unfold method. destruct (heap w1 !! bot) as [self|]; simpl; [|discriminate].
    unfold get_qr_code_path. simpl.
    destruct (exists_path (qr_code_path self) (os w1)); simpl; [|discriminate].
    destruct (str_nonempty (qr_code_path self)); simpl; discriminate. }
  destruct (truthy (of_option_str (API_KEY cfg))); [|exact Hhandler].
  destruct (negb (truthy (of_option_str provided_key))
            || negb (bool_decide (provided_key = API_KEY cfg)));
    [simpl; discriminate|exact Hhandler].
Qed.

(** C7. A session for "default" shows its scan code and the image is
    saved at the session's [qr_code_path]; nobody scans it. The image
    exists, and the scan-code route answers with status 500 and the text of
    an [AttributeError], not with the image. *)
Theorem qr_route_fails_when_image_exists :
  let w := snd (App.initialize_session cfg None unscanned 100
                  "2026-01-01T00:00:00" "default" (installed start)) in
  let answer := App.get_qr_code cfg None 200 "default" w in
  qr_code_path <$> heap w !! 0%nat = Some "qr_codes/default_qr.png"
  /\ exists_path "qr_codes/default_qr.png" (os w) = true
  /\ fst answer
     = mkResponse 500
         (Json [("success", PyBool false);
                ("error", PyStr "'str' object has no attribute 'exists'")]).
Proof. vm_compute. repeat split; reflexivity. Qed.

(** When the image does not exist the route answers 404. *)
Lemma qr_route_not_available :
  fst (App.get_qr_code cfg None 200 "default" (installed start))
  = mkResponse 404
      (Json [("success", PyBool false); ("error", PyStr "QR code not available")]).
Proof. vm_compute. reflexivity. Qed.

End RouteFacts.

(** ** The idle sweep *)

Section SweepFacts.
Import Py App Scenario.

Context (cfg : Config) (cenv : string -> CloseEnv) (current_time : Z).

Local Abbreviation step := (cleanup_step cfg cenv current_time).
Local Abbreviation sweep := (foldl (cleanup_step cfg cenv current_time)).

Lemma evolves_refl w : evolves cfg current_time w w.
Proof.
  split; [reflexivity|]. split; [reflexivity|].
  intros bot self Hself. exists self. repeat split; auto.
Qed.

Lemma evolves_trans w1 w2 w3 :
  evolves cfg current_time w1 w2 -> evolves cfg current_time w2 w3 ->
  evolves cfg current_time w1 w3.
Proof.
  intros (Hlen1 & Hlive1 & H1) (Hlen2 & Hlive2 & H2).
  split; [congruence|]. split; [etransitivity; eassumption|].
  intros bot self Hself.
  destruct (H1 bot self Hself) as (self2 & Hself2 & Hla2 & Hkeep2 & Hnone2 & Hdrv2).
  destruct (H2 bot self2 Hself2) as (self3 & Hself3 & Hla3 & Hkeep3 & Hnone3 & Hdrv3).
  exists self3. split; [exact Hself3|]. split; [congruence|].
  split.
  { intros Hyoung. rewrite (Hkeep2 Hyoung) in *. now apply Hkeep3. }
  split; [auto|].
  intros h Hh. destruct (Hdrv2 h Hh) as [Hsame|[Hcleared Hgone]].
  - exact (Hdrv3 h Hsame).
  - right. split; [auto|]. intros Hin. apply Hgone. now apply Hlive2.
Qed.

Lemma step_evolves w item : evolves cfg current_time w (step w item).
Proof.
  destruct item as [device_id bot]. unfold cleanup_step.
  destruct (heap w !! bot) as [self|] eqn:Hself; [|apply evolves_refl].
  destruct (too_old cfg current_time self) eqn:Hold; [|apply evolves_refl].
  pose proof (close_cases (cenv device_id) self (os w)) as Hclose.
  destruct (Bot.close (cenv device_id) (self, os w)) as [self' o'] eqn:E.
  simpl. split; [apply length_insert|].
  assert (bot < length (heap w))%nat as Hlt by (eapply lookup_lt_Some; eassumption).
  split.
  { simpl. destruct Hclose as [[_ [= -> ->]]|[(h & _ & _ & [= -> ->])|(h & _ & _ & _ & Hlive & _)]].
    - reflexivity.
    - reflexivity.
    - simpl in Hlive. rewrite Hlive. apply subseteq_difference_l. reflexivity. }
  intros b selfb Hb. simpl.
  destruct (decide (b = bot)) as [->|Hne].
  - rewrite list_lookup_insert_eq by exact Hlt.
    assert (selfb = self) as -> by congruence.
    exists self'. split; [reflexivity|].
    destruct Hclose as [[Hnone [= -> ->]]|[(h & Hh & _ & [= -> ->])|(h & Hh & _ & Hfst & Hlive & _)]].
    + repeat split; auto.
    + repeat split; auto.
    + simpl in Hfst, Hlive. subst self'. split; [reflexivity|].
      split; [congruence|]. split; [reflexivity|].
      intros h' Hh'. right. split; [reflexivity|].
      assert (h' = h) as -> by congruence.
      rewrite Hlive. apply not_elem_of_remove.
  - rewrite list_lookup_insert_ne by congruence.
    exists selfb. repeat split; auto.
Qed.

Lemma sweep_evolves l w : evolves cfg current_time w (sweep w l).
Proof.
  revert w. induction l as [|item rest IH]; intros w; cbn [foldl].
  - apply evolves_refl.
  - eapply evolves_trans; [apply step_evolves|apply IH].
Qed.

Lemma evolves_old_at w w' bot :
  evolves cfg current_time w w' ->
  old_at cfg current_time w' bot = old_at cfg current_time w bot.
Proof.
  intros (Hlen & _ & H). unfold old_at.
  destruct (heap w !! bot) as [self|] eqn:Hself.
  - destruct (H bot self Hself) as (self' & -> & Hla & _).
    unfold too_old. now rewrite Hla.
  - apply lookup_ge_None in Hself. rewrite <- Hlen in Hself.
    apply lookup_ge_None in Hself. now rewrite Hself.
Qed.

Lemma step_registry w device_id bot :
  bot_instances (step w (device_id, bot))
  = if old_at cfg current_time w bot
    then delete device_id (bot_instances w)
    else bot_instances w.
Proof.
  unfold cleanup_step, old_at.
  destruct (heap w !! bot) as [self|]; [|reflexivity].
  destruct (too_old cfg current_time self); [|reflexivity].
  now destruct (Bot.close (cenv device_id) (self, os w)).
Qed.

Lemma sweep_stays_removed l w device_id :
  bot_instances w !! device_id = None ->
  bot_instances (sweep w l) !! device_id = None.
Proof.
  revert w. induction l as [|[d bot] rest IH]; intros w Hnone; cbn [foldl]; [exact Hnone|].
  apply IH. rewrite step_registry.
  destruct (old_at cfg current_time w bot); [|exact Hnone].
  destruct (decide (d = device_id)) as [->|Hne].
  - apply lookup_delete_eq.
  - now rewrite lookup_delete_ne.
Qed.

Lemma sweep_removes l w device_id bot :
  (device_id, bot) ∈ l ->
  old_at cfg current_time w bot = true ->
  bot_instances (sweep w l) !! device_id = None.
Proof.
  revert w. induction l as [|[d b] rest IH]; intros w Hin Hold; cbn [foldl].
  - now apply elem_of_nil in Hin.
  - apply elem_of_cons in Hin as [[= <- <-]|Hin].
    + apply sweep_stays_removed. rewrite step_registry, Hold.
      apply lookup_delete_eq.
    + apply IH; [exact Hin|].
      now rewrite (evolves_old_at _ _ _ (step_evolves w (d, b))).
Qed.

Lemma sweep_keeps l w device_id :
  (forall bot, (device_id, bot) ∈ l -> old_at cfg current_time w bot = false) ->
  bot_instances (sweep w l) !! device_id = bot_instances w !! device_id.
Proof.
  revert w. induction l as [|[d b] rest IH]; intros w Hyoung; cbn [foldl]; [reflexivity|].
  rewrite IH.
  - rewrite step_registry.
    destruct (old_at cfg current_time w b) eqn:Hold; [|reflexivity].
    destruct (decide (d = device_id)) as [->|Hne].
    + rewrite Hyoung in Hold; [discriminate|]. apply elem_of_cons. now left.
    + now rewrite lookup_delete_ne.
  - intros bot Hin.
    rewrite (evolves_old_at _ _ _ (step_evolves w (d, b))).
    apply Hyoung. apply elem_of_cons. now right.
Qed.

Lemma sweep_closes l w device_id bot self :
  (device_id, bot) ∈ l ->
  heap w !! bot = Some self ->
  too_old cfg current_time self = true ->
  quit_raises (cenv device_id) = None ->
  driver <$> heap (sweep w l) !! bot = Some None
  /\ forall h, driver self = Some h -> h ∉ live (os (sweep w l)).
Proof.
  revert w self. induction l as [|[d b] rest IH]; intros w self Hin Hself Hold Hquit.
  - now apply elem_of_nil in Hin.
  - cbn [foldl]. apply elem_of_cons in Hin as [[= <- <-]|Hin].
    + destruct (sweep_evolves rest (step w (device_id, bot)))
        as (_ & Hlive & Hrest).
      assert (exists self1, heap (step w (device_id, bot)) !! bot = Some self1
                /\ driver self1 = None
                /\ forall h, driver self = Some h ->
                     h ∉ live (os (step w (device_id, bot))))
        as (self1 & Hself1 & Hnone1 & Hgone1).
      { assert (bot < length (heap w))%nat as Hlt
          by (eapply lookup_lt_Some; eassumption).
        unfold cleanup_step. rewrite Hself, Hold.
        pose proof (close_cases (cenv device_id) self (os w)) as Hclose.
        destruct (Bot.close (cenv device_id) (self, os w)) as [self' o'].
        simpl. rewrite list_lookup_insert_eq by exact Hlt.
        exists self'. split; [reflexivity|].
        destruct Hclose as [[Hnone [= -> ->]]|[(h & _ & [msg Hmsg] & _)|(h & Hh & _ & Hfst & Hl & _)]].
        - split; [exact Hnone|]. intros h Hh. congruence.
        - congruence.
        - simpl in Hfst, Hl. subst self'. split; [reflexivity|].
          intros h' Hh'. assert (h' = h) as -> by congruence.
          rewrite Hl. apply not_elem_of_remove. }
      destruct (Hrest bot self1 Hself1) as (self2 & Hself2 & _ & _ & Hnone2 & _).
      split.
      * rewrite Hself2. simpl. now rewrite (Hnone2 Hnone1).
      * intros h Hh Hin. apply (Hgone1 h Hh). now apply Hlive.
    + destruct (step_evolves w (d, b)) as (_ & _ & Hstep).
      destruct (Hstep bot self Hself) as (self1 & Hself1 & Hla & _ & _ & Hdrv).
      assert (too_old cfg current_time self1 = true) as Hold1
        by (unfold too_old in *; now rewrite Hla).
      destruct (IH (step w (d, b)) self1 Hin Hself1 Hold1 Hquit) as [Hnone Hgone].
      split; [exact Hnone|].
      intros h Hh. destruct (Hdrv h Hh) as [Hsame|[_ Hdead]].
      * now apply Hgone.
      * destruct (sweep_evolves rest (step w (d, b))) as (_ & Hlive & _).
        intros Hin'. apply Hdead. now apply Hlive.
Qed.

(** C5 (as the code has it). The sweep removes from the registry exactly
    the sessions that have been idle for more than the timeout: a session
    whose idle time is larger than [SESSION_TIMEOUT_MINUTES * 60] is
    removed and [close] is run on it (when its [quit] returns, its handle is
    cleared and its browser is gone); a session whose idle time is at most
    the timeout keeps its registry entry and its object is not written; no
    entry is added. This holds whichever [quit] and [os.remove] calls
    raise: the sweep goes on to the remaining sessions. *)
Theorem cleanup_old_sessions_spec (w : World) :
  let w' := cleanup_old_sessions cfg cenv current_time w in
  (forall device_id bot self,
      bot_instances w !! device_id = Some bot ->
      heap w !! bot = Some self ->
      (SESSION_TIMEOUT_MINUTES cfg * 60 < current_time - last_activity self ->
         bot_instances w' !! device_id = None
         /\ (quit_raises (cenv device_id) = None ->
             driver <$> heap w' !! bot = Some None
             /\ forall h, driver self = Some h -> h ∉ live (os w')))
      /\ (current_time - last_activity self <= SESSION_TIMEOUT_MINUTES cfg * 60 ->
           bot_instances w' !! device_id = Some bot
           /\ heap w' !! bot = Some self))
  /\ (forall device_id,
        bot_instances w !! device_id = None ->
        bot_instances w' !! device_id = None).
Proof.
  intros w'. subst w'. unfold cleanup_old_sessions. split.
  - intros device_id bot self Hreg Hself.
    assert ((device_id, bot) ∈ map_to_list (bot_instances w)) as Hin
      by now apply elem_of_map_to_list.
    split.
    + intros Hidle.
      assert (too_old cfg current_time self = true) as Hold
        by now apply bool_decide_eq_true.
      split.
      * apply (sweep_removes _ _ _ bot Hin). unfold old_at. now rewrite Hself.
      * intros Hquit. now apply (sweep_closes _ _ device_id).
    + intros Hidle.
      assert (too_old cfg current_time self = false) as Hyoung
        by (apply bool_decide_eq_false; unfold timeout_seconds; lia).
      split.
      * rewrite sweep_keeps; [exact Hreg|].
        intros bot' Hin'. apply elem_of_map_to_list in Hin'.
        assert (bot' = bot) as -> by congruence.
        unfold old_at. now rewrite Hself.
      * destruct (sweep_evolves (map_to_list (bot_instances w)) w)
          as (_ & _ & Hobj).
        destruct (Hobj bot self Hself) as (self' & Hself' & _ & Hsame & _).
        now rewrite Hself', (Hsame Hyoung).
  - intros device_id Hnone. now apply sweep_stays_removed.
Qed.

End SweepFacts.

Section SweepExamples.
Import Py App Scenario.

Lemma cleanup_old_sessions_spec_witness :
  let w' := cleanup_old_sessions cfg flaky 1900 two_sessions in
  let w'' := cleanup_old_sessions cfg (fun _ => quiet) 5000 two_sessions in
  (bot_instances w' !! "a" = None
   /\ bot_instances w' !! "b" = Some 1%nat
   /\ heap w' !! 1%nat = Some session_b
   /\ bot_instances w' !! "c" = None)
  /\ (bot_instances w'' !! "b" = None
      /\ driver <$> heap w'' !! 1%nat = Some None
      /\ 1%nat ∉ live (os w'')).
Proof.
  split.
  - destruct (cleanup_old_sessions_spec cfg flaky 1900 two_sessions)
      as [Hreg Hnone].
    destruct (Hreg "a" 0%nat session_a) as [Hold _];
      try (vm_compute; reflexivity).
    destruct (Hreg "b" 1%nat session_b) as [_ Hyoung];
      try (vm_compute; reflexivity).
    split; [apply Hold; vm_compute; reflexivity|].
    split; [apply Hyoung; vm_compute; discriminate|].
    split; [apply Hyoung; vm_compute; discriminate|].
    apply Hnone. vm_compute. reflexivity.
  - destruct (cleanup_old_sessions_spec cfg (fun _ => quiet) 5000 two_sessions)
      as [Hreg _].
    destruct (Hreg "b" 1%nat session_b) as [Hold _];
      try (vm_compute; reflexivity).
    destruct Hold as [Hgone Hclosed]; [vm_compute; reflexivity|].
    destruct (Hclosed eq_refl) as [Hdrv Hlive].
    split; [exact Hgone|]. split; [exact Hdrv|]. now apply Hlive.
Defined.

(** C5, counterexample. With the timeout at 30 minutes, the session "a"
    was last active at time 0 and the sweep runs at time 1800: the session
    has been idle for exactly the timeout, and it stays registered. *)
Lemma idle_for_exactly_the_timeout_is_kept :
  let w' := cleanup_old_sessions cfg (fun _ => quiet) 1800 two_sessions in
  bot_instances two_sessions !! "a" = Some 0%nat
  /\ heap two_sessions !! 0%nat = Some session_a
  /\ 1800 - last_activity session_a >= SESSION_TIMEOUT_MINUTES cfg * 60
  /\ bot_instances w' !! "a" = Some 0%nat
  /\ heap w' !! 0%nat = Some session_a.
Proof. vm_compute. repeat split; (reflexivity || discriminate). Qed.

End SweepExamples.

(** ** Deleting a session *)

Section DeleteFacts.
Import Py App Scenario.

(** [DELETE /sessions/<device_id>] closes the session before it drops the
    registry entry: when [quit] returns, the browser is gone and the
    handle is cleared by the time the entry is removed. *)
Lemma delete_session_closes_first cenv device_id w bot self h :
  bot_instances w !! device_id = Some bot ->
  heap w !! bot = Some self ->
  driver self = Some h ->
  quit_raises cenv = None ->
  let w' := snd (delete_session_handler cenv device_id w) in
  bot_instances w' !! device_id = None
  /\ driver <$> heap w' !! bot = Some None
  /\ (h ∉ live (os w'))
  /\ trace (os w') = trace (os w) ++ [EvQuit h].
Proof.
  intros Hreg Hself Hdrv Hquit. unfold delete_session_handler, method.
  rewrite Hreg, Hself.
  assert (bot < length (heap w))%nat as Hlt by (eapply lookup_lt_Some; eassumption).
  pose proof (close_cases cenv self (os w)) as Hclose.
  destruct (Bot.close cenv (self, os w)) as [self' o']. simpl.
  rewrite lookup_delete_eq, list_lookup_insert_eq by exact Hlt.
  destruct Hclose as [[Hnone _]|[(h' & _ & [msg Hmsg] & _)|(h' & Hh' & _ & Hfst & Hlive & Htrace)]];
    [congruence|congruence|].
  simpl in Hfst, Hlive, Htrace. subst self'.
  assert (h' = h) as -> by congruence.
  split; [reflexivity|]. split; [reflexivity|].
  split; [rewrite Hlive; apply not_elem_of_remove|exact Htrace].
Qed.

End DeleteFacts.

(** * Further properties of the code *)

(** ** The keys typed into the compose box *)

Section ComposeKeys.
Import Bot.

Lemma split_newline_nonempty message : split_newline message <> [].
Proof.
  destruct message as [|c rest]; simpl; [discriminate|].
  destruct (Ascii.eqb c newline); [discriminate|].
  destruct (split_newline rest); discriminate.
Qed.

Lemma type_lines_cons c line lines :
  typed (type_lines (String c line :: lines))
  = String c (typed (type_lines (line :: lines))).
Proof. destruct lines; reflexivity. Qed.

Lemma typed_lines message : typed (type_lines (split_newline message)) = message.
Proof.
  induction message as [|c rest IH]; [reflexivity|].
  simpl. destruct (Ascii.eqb c newline) eqn:Hc.
  - apply Ascii.eqb_eq in Hc. subst c.
    pose proof (split_newline_nonempty rest) as Hne.
    destruct (split_newline rest) as [|line lines]; [contradiction|].
    simpl. simpl in IH. now rewrite IH.
  - pose proof (split_newline_nonempty rest) as Hne.
    destruct (split_newline rest) as [|line lines]; [contradiction|].
    rewrite type_lines_cons. now rewrite IH.
Qed.

Lemma typed_app_enter keys : typed (keys ++ [Enter]) = typed keys.
Proof.
  induction keys as [|k rest IH]; [reflexivity|].
  destruct k; simpl; now rewrite IH.
Qed.

Lemma split_newline_lines message :
  Forall (fun line => count_newlines line = 0%nat) (split_newline message)
  /\ length (split_newline message) = S (count_newlines message).
Proof.
  induction message as [|c rest [IHlines IHlen]]; simpl.
  - split; [now constructor|reflexivity].
  - destruct (Ascii.eqb c newline) eqn:Hc.
    + split; [now constructor|]. simpl. now rewrite IHlen.
    + destruct (split_newline rest) as [|line lines]; [discriminate|].
      split; [|exact IHlen].
      inversion IHlines as [|? ? Hline Hlines]; subst.
      constructor; [|exact Hlines]. simpl. now rewrite Hc.
Qed.

Lemma type_lines_keys lines :
  lines <> [] ->
  length (List.filter is_shift_enter (type_lines lines)) = pred (length lines)
  /\ List.filter is_enter (type_lines lines) = []
  /\ forall text, SendKeys text ∈ type_lines lines -> text ∈ lines.
Proof.
  induction lines as [|line rest IH]; [contradiction|]. intros _.
  destruct rest as [|line' rest'].
  - simpl. split; [reflexivity|]. split; [reflexivity|].
    intros text Hin. apply list_elem_of_singleton in Hin as [= ->].
    now left.
  - destruct IH as (IHshift & IHenter & IHtext); [discriminate|].
    change (type_lines (line :: line' :: rest'))
      with (SendKeys line :: ShiftEnter :: type_lines (line' :: rest')).
    split; [simpl; simpl in IHshift; now rewrite IHshift|].
    split; [exact IHenter|].
    intros text Hin.
    apply elem_of_cons in Hin as [[= ->]|Hin]; [now left|].
    apply elem_of_cons in Hin as [Hin|Hin]; [discriminate|].
    right. now apply IHtext.
Qed.

(** Typing a message splits it at its line breaks: what ends up in the
    compose box is the message itself, there is one Shift+Enter per line
    break, no chunk that is typed contains a line break, and Enter is
    pressed once, as the last key. *)
Theorem compose_keys_round_trip message :
  typed (compose_keys message) = message
  /\ length (List.filter is_shift_enter (compose_keys message))
     = count_newlines message
  /\ (forall text, SendKeys text ∈ compose_keys message ->
        count_newlines text = 0%nat)
  /\ List.filter is_enter (compose_keys message) = [Enter]
  /\ last (compose_keys message) = Some Enter.
Proof.
  unfold compose_keys.
  pose proof (split_newline_nonempty message) as Hne.
  destruct (split_newline_lines message) as [Hlines Hlen].
  destruct (type_lines_keys (split_newline message) Hne)
    as (Hshift & Henter & Htext).
  split; [simpl; now rewrite typed_app_enter, typed_lines|].
  split.
  { simpl. rewrite List.filter_app. simpl. rewrite length_app. simpl.
    rewrite Hshift, Hlen. simpl. lia. }
  split.
  { intros text Hin. apply elem_of_cons in Hin as [Hin|Hin]; [discriminate|].
    apply elem_of_app in Hin as [Hin|Hin].
    - apply Htext in Hin. rewrite Forall_forall in Hlines. now apply Hlines.
    - apply list_elem_of_singleton in Hin. discriminate. }
  split.
  { simpl. rewrite List.filter_app, Henter. reflexivity. }
  change (Click :: type_lines (split_newline message) ++ [Enter])
    with ((Click :: type_lines (split_newline message)) ++ [Enter]).
  apply last_snoc.
Qed.

Lemma compose_keys_round_trip_witness :
  count_newlines "line one" = 0%nat.
Proof.
  destruct (compose_keys_round_trip
              ("line one" +:+ String newline "line two")) as (_ & _ & Hchunks & _).
  apply Hchunks. vm_compute. apply list_elem_of_further, list_elem_of_here.
Defined.

End ComposeKeys.

(** ** Waiting for one of several elements *)

Section Selectors.
Import Bot.

Lemma any_element_present_false find selectors :
  any_element_present find selectors = inr false
  <-> forall selector, selector ∈ selectors -> find selector = NoSuchElement.
Proof.
  induction selectors as [|s rest IH]; simpl.
  - split; [|reflexivity]. intros _ selector Hin. now apply elem_of_nil in Hin.
  - destruct (find s) eqn:Hs.
    + split; [discriminate|]. intros Hall.
      specialize (Hall s (list_elem_of_here _ _)). congruence.
    + rewrite IH. split.
      * intros Hall selector Hin.
        apply elem_of_cons in Hin as [->|Hin]; [exact Hs|now apply Hall].
      * intros Hall selector Hin. apply Hall. now right.
    + split; [discriminate|]. intros Hall.
      specialize (Hall s (list_elem_of_here _ _)). congruence.
Qed.

Lemma any_element_present_true find selectors :
  any_element_present find selectors = inr true
  <-> exists before selector after,
        selectors = before ++ selector :: after
        /\ find selector = Found
        /\ forall earlier, earlier ∈ before -> find earlier = NoSuchElement.
Proof.
  induction selectors as [|s rest IH]; simpl.
  - split; [discriminate|]. intros (before & selector & after & Heq & _).
    now destruct before.
  - destruct (find s) eqn:Hs.
    + split; [|reflexivity]. intros _. exists [], s, rest.
      split; [reflexivity|]. split; [exact Hs|].
      intros earlier Hin. now apply elem_of_nil in Hin.
    + rewrite IH. split.
      * intros (before & selector & after & -> & Hfound & Hnone).
        exists (s :: before), selector, after.
        split; [reflexivity|]. split; [exact Hfound|].
        intros earlier Hin.
        apply elem_of_cons in Hin as [->|Hin]; [exact Hs|now apply Hnone].
      * intros (before & selector & after & Heq & Hfound & Hnone).
        destruct before as [|b before]; simpl in Heq.
        -- injection Heq as -> ->. congruence.
        -- injection Heq as -> ->. exists before, selector, after.
           split; [reflexivity|]. split; [exact Hfound|].
           intros earlier Hin. apply Hnone. now right.
    + split; [discriminate|].
      intros (before & selector & after & Heq & Hfound & Hnone).
      destruct before as [|b before]; simpl in Heq.
      * injection Heq as -> ->. congruence.
      * injection Heq as -> ->.
        specialize (Hnone b (list_elem_of_here _ _)). congruence.
Qed.

Lemma any_element_present_quiet find selectors :
  (forall selector msg, selector ∈ selectors -> find selector <> LookupRaises msg) ->
  forall b, any_element_present find selectors = inr b
  <-> (b = true <-> exists selector, selector ∈ selectors /\ find selector = Found).
Proof.
  induction selectors as [|s rest IH]; intros Hquiet b; simpl.
  - split.
    + intros [= <-]. split; [discriminate|].
      intros (selector & Hin & _). now apply elem_of_nil in Hin.
    + intros Hb. destruct b; [|reflexivity].
      destruct (proj1 Hb eq_refl) as (selector & Hin & _).
      now apply elem_of_nil in Hin.
  - destruct (find s) eqn:Hs.
    + split.
      * intros [= <-]. split; [|reflexivity]. intros _. exists s.
        split; [now left|exact Hs].
      * intros Hb. f_equal. symmetry. apply Hb. exists s.
        split; [now left|exact Hs].
    + rewrite IH.
      * split; intros Hb; (split; [intros Htrue|intros (selector & Hin & Hf)]).
        -- destruct (proj1 Hb Htrue) as (selector & Hin & Hf).
           exists selector. split; [now right|exact Hf].
        -- apply Hb. apply elem_of_cons in Hin as [->|Hin]; [congruence|].
           now exists selector.
        -- destruct (proj1 Hb Htrue) as (selector & Hin & Hf).
           apply elem_of_cons in Hin as [->|Hin]; [congruence|].
           now exists selector.
        -- apply Hb. exists selector. split; [now right|exact Hf].
      * intros selector msg Hin. apply Hquiet. now right.
    + exfalso. apply (Hquiet s msg); [now left|exact Hs].
Qed.

(** The condition is true exactly when some selector finds an element and
    every selector tried before it raised [NoSuchElementException]; it is
    false exactly when every selector raised that exception (so also for no
    selectors at all); and as long as no lookup raises anything else, the
    order in which the selectors are given does not matter. *)
Theorem any_element_present_spec find selectors selectors' :
  (any_element_present find selectors = inr true
   <-> exists before selector after,
         selectors = before ++ selector :: after
         /\ find selector = Found
         /\ forall earlier, earlier ∈ before -> find earlier = NoSuchElement)
  /\ (any_element_present find selectors = inr false
      <-> forall selector, selector ∈ selectors -> find selector = NoSuchElement)
  /\ (selectors ≡ₚ selectors' ->
      (forall selector msg, selector ∈ selectors ->
         find selector <> LookupRaises msg) ->
      any_element_present find selectors' = any_element_present find selectors).
Proof.
  split; [apply any_element_present_true|].
  split; [apply any_element_present_false|].
  intros Hperm Hquiet.
  assert (forall selector msg, selector ∈ selectors' ->
            find selector <> LookupRaises msg) as Hquiet'.
  { intros selector msg Hin. apply Hquiet. now rewrite Hperm. }
  destruct (any_element_present find selectors) as [msg|b] eqn:E.
  - exfalso. clear Hperm Hquiet'.
    induction selectors as [|s rest IH]; simpl in E; [discriminate|].
    destruct (find s) eqn:Hs; [discriminate| |].
    + apply IH; [|exact E]. intros selector m Hin. apply Hquiet. now right.
    + apply (Hquiet s msg0); [now left|exact Hs].
  - apply (any_element_present_quiet find selectors Hquiet b) in E.
    apply (any_element_present_quiet find selectors' Hquiet' b).
    rewrite E. split; intros (selector & Hin & Hf); exists selector;
      (split; [|exact Hf]); [now rewrite <- Hperm|now rewrite Hperm].
Qed.

Lemma any_element_present_spec_witness :
  let find := fun selector : string =>
    if String.eqb selector "div[role=textbox]" then Found else NoSuchElement in
  any_element_present find ["div[role=textbox]"; "div[data-tab]"]
  = any_element_present find ["div[data-tab]"; "div[role=textbox]"].
Proof.
  intros find.
  apply (any_element_present_spec find ["div[data-tab]"; "div[role=textbox]"]
           ["div[role=textbox]"; "div[data-tab]"]).
  - apply perm_swap.
  - intros selector msg _. unfold find.
    destruct (String.eqb selector "div[role=textbox]"); discriminate.
Defined.

End Selectors.

(** ** The debug port and the session status *)

Section PortAndStatus.
Import Py App Scenario.

(** Whatever the hash of the device id - Python hashes may be negative -
    the debug port lies between 9222 and 10221. Sessions made by the
    registry all carry the device id "default", so any two of them get the
    same port. *)
Theorem remote_debugging_port_spec (hash : string -> Z) cfg gc gc' now now'
    (d d' : string) (w w' : World) self :
  (9222 <= remote_debugging_port hash self <= 10221)
  /\ (bot_instances w !! d = None ->
      bot_instances w' !! d' = None ->
      let first := get_or_create_bot cfg gc now d false w in
      let second := get_or_create_bot cfg gc' now' d' false w' in
      forall self1 self2,
        heap (snd first) !! fst first = Some self1 ->
        heap (snd second) !! fst second = Some self2 ->
        remote_debugging_port hash self1 = remote_debugging_port hash self2).
Proof.
  split.
  - unfold remote_debugging_port.
    pose proof (Z.mod_pos_bound (hash (device_id self)) 1000). lia.
  - intros Hnew Hnew' first second self1 self2 H1 H2.
    destruct (get_or_create_bot_fresh cfg gc now d false w Hnew) as [_ Hobj].
    destruct (get_or_create_bot_fresh cfg gc' now' d' false w' Hnew') as [_ Hobj'].
    fold first in Hobj. fold second in Hobj'.
    rewrite Hobj in H1. rewrite Hobj' in H2.
    injection H1 as <-. injection H2 as <-. reflexivity.
Qed.

Lemma remote_debugging_port_spec_witness :
  let hash := fun s : string => - Z.of_nat (String.length s) in
  let alice := mkBot "default" true None "sessions/default"
                 "qr_codes/default_qr.png" false "https://web.whatsapp.com/"
                 "sessions/alice" 0 in
  let bob := mkBot "default" true None "sessions/default"
               "qr_codes/default_qr.png" false "https://web.whatsapp.com/"
               "sessions/bob" 5 in
  remote_debugging_port hash alice = remote_debugging_port hash bob.
Proof.
  intros hash alice bob.
  destruct (remote_debugging_port_spec hash cfg unconsulted unconsulted 0 5
              "alice" "bob" start
              (snd (get_or_create_bot cfg unconsulted 0 "alice" false start)) alice)
    as [_ Hsame].
  apply Hsame; vm_compute; reflexivity.
Defined.

(** [get_session_status] answers "not_initialized" exactly for a session
    without a driver handle; "authenticated" is answered only with the
    flag set, and any other answer leaves the session as it was; the
    outside world is never touched, and the answer is one of five. *)
Theorem get_session_status_spec auth qr (st : state) :
  let answer := get_session_status auth qr st in
  (fst answer = "not_initialized" <-> driver (fst st) = None)
  /\ (fst answer = "authenticated" -> is_authenticated (fst (snd answer)) = true)
  /\ (fst answer <> "authenticated" -> snd answer = st)
  /\ snd (snd answer) = snd st
  /\ driver (fst (snd answer)) = driver (fst st)
  /\ fst answer ∈ ["not_initialized"; "authenticated"; "qr_required";
                   "unknown"; "error"].
Proof.
  destruct st as [[did hl drv sd qr_path authd url pd la] o].
  unfold get_session_status, run_total, _check_authentication,
    _wait_for_qr_code, wait_until, bind, ret, raise, get_self, modify_self.
  simpl. destruct drv as [h|]; simpl.
  - destruct auth; simpl.
    + repeat split; try discriminate; try reflexivity; try congruence.
      set_unfold. tauto.
    + destruct qr; simpl;
        repeat split; try discriminate; try reflexivity; try congruence;
        set_unfold; tauto.
    + repeat split; try discriminate; try reflexivity; try congruence.
      set_unfold. tauto.
  - repeat split; try discriminate; try reflexivity; try congruence.
    set_unfold. tauto.
Qed.

Lemma get_session_status_spec_witness :
  let answer := get_session_status Present TimedOut ready in
  is_authenticated (fst (snd answer)) = true
  /\ snd (get_session_status TimedOut Present ready) = ready
  /\ fst (get_session_status Present Present fresh) = "not_initialized".
Proof.
  split; [|split].
  - apply (get_session_status_spec Present TimedOut ready).
    vm_compute. reflexivity.
  - apply (get_session_status_spec TimedOut Present ready).
    vm_compute. discriminate.
  - apply (get_session_status_spec Present Present fresh).
    vm_compute. reflexivity.
Defined.

End PortAndStatus.

(** ** The routes: access, bad requests and the session count *)

Section RouteAccess.
Import Py App Scenario.

Lemma authorised_runs cfg provided_key (f : World -> Response * World) w :
  authorised cfg provided_key -> require_api_key cfg provided_key f w = f w.
Proof.
  unfold authorised, require_api_key. intros [Hoff | ->].
  - now rewrite Hoff.
  - destruct (truthy (of_option_str (API_KEY cfg))) eqn:Hon; [|reflexivity].
    simpl. now rewrite bool_decide_eq_true_2.
Qed.

(** With a non-empty key configured, a wrapped route runs its handler when
    the header carries exactly that key, and otherwise - header absent,
    empty or different - answers 401 without running it, so nothing
    changes. With no key configured, or an empty one, the handler runs
    whatever the header is. *)
Theorem require_api_key_spec cfg provided_key (f : World -> Response * World) w :
  (truthy (of_option_str (API_KEY cfg)) = false ->
     require_api_key cfg provided_key f w = f w)
  /\ (forall key, API_KEY cfg = Some key -> str_nonempty key = true ->
        (provided_key = Some key -> require_api_key cfg provided_key f w = f w)
        /\ (provided_key <> Some key ->
            require_api_key cfg provided_key f w = (unauthorized, w))).
Proof.
  split.
  - intros Hoff. apply authorised_runs. now left.
  - intros key Hkey Hne. split.
    + intros ->. apply authorised_runs. right. now rewrite Hkey.
    + intros Hwrong. unfold require_api_key. rewrite Hkey. simpl. rewrite Hne.
      rewrite (bool_decide_eq_false_2 (provided_key = Some key) Hwrong).
      now rewrite orb_true_r.
Qed.

Lemma require_api_key_spec_witness :
  let locked := mkConfig true (Some "s3cret") 30 in
  App.send_message locked (Some "guess") all_fine 0 "t" "default"
    (body_of "9876543210" "hello") start = (unauthorized, start)
  /\ App.delete_session locked None quiet "default" two_sessions
     = (unauthorized, two_sessions)
  /\ App.get_qr_code locked (Some "s3cret") 0 "default" start
     = get_qr_code_handler locked 0 "default" start
  /\ App.get_qr_code (mkConfig true (Some EmptyString) 30) None 0 "default" start
     = get_qr_code_handler (mkConfig true (Some EmptyString) 30) 0 "default" start.
Proof.
  simpl. split; [|split; [|split]].
  - apply (require_api_key_spec (mkConfig true (Some "s3cret") 30) (Some "guess"))
      with (key := "s3cret"); [reflexivity|reflexivity|discriminate].
  - apply (require_api_key_spec (mkConfig true (Some "s3cret") 30) None)
      with (key := "s3cret"); [reflexivity|reflexivity|discriminate].
  - apply (require_api_key_spec (mkConfig true (Some "s3cret") 30) (Some "s3cret"))
      with (key := "s3cret"); reflexivity.
  - apply (require_api_key_spec (mkConfig true (Some EmptyString) 30) None).
    reflexivity.
Defined.

(** What the send route does with the request body before its [try].
    A body that is absent, not JSON or false in Python's sense ([null],
    [false], zero, an empty string, list or object), and an object whose
    [phone] or [message] is missing or false in that sense, are answered
    with 400 and "'phone' and 'message' fields are required"; a body that
    is true and not an object (a non-empty list or string, a number other
    than zero, [true]) makes [data.get] raise and is answered with 500.
    Either way nothing changes: no session is registered. 400 is answered
    in those cases only, and a request that fails the key check gets 401
    whatever its body. *)
Theorem send_route_missing_field cfg provided_key env now timestamp device_id
    json w :
  let handled := send_message_handler cfg env now timestamp device_id json w in
  let answer := App.send_message cfg provided_key env now timestamp device_id
                  json w in
  let missing := fun items =>
    truthy (dict_get "phone" items) = false
    \/ truthy (dict_get "message" items) = false in
  (truthy json = false -> handled = (fields_required, w))
  /\ (forall items, json = PyDict items -> missing items ->
        handled = (fields_required, w))
  /\ (truthy json = true -> (forall items, json <> PyDict items) ->
      handled = (internal_server_error, w))
  /\ (status (fst handled) = 400%nat ->
      truthy json = false \/ exists items, json = PyDict items /\ missing items)
  /\ (authorised cfg provided_key -> answer = handled)
  /\ (answer = handled \/ answer = (unauthorized, w)).
Proof.
  intros handled answer missing.
  assert (forall items, missing items ->
            negb (truthy (dict_get "phone" items))
            || negb (truthy (dict_get "message" items)) = true) as Hguard.
  { intros items [-> | ->]; [reflexivity|apply orb_true_r]. }
  split; [|split; [|split; [|split; [|split]]]].
  - intros Hfalse. subst handled. unfold send_message_handler.
    now rewrite Hfalse.
  - intros items -> Hmissing. subst handled. unfold send_message_handler.
    destruct (truthy (PyDict items)); [|reflexivity].
    now rewrite (Hguard items Hmissing).
  - intros Htrue Hother. subst handled. unfold send_message_handler.
    rewrite Htrue. destruct json; try reflexivity.
    now destruct (Hother items).
  - subst handled. unfold send_message_handler.
    destruct (truthy json) eqn:Htrue; [|now left].
    destruct json; try discriminate.
    intros Hstatus. right. exists items. split; [reflexivity|].
    subst missing. cbv beta.
    destruct (truthy (dict_get "phone" items)); [|now left].
    destruct (truthy (dict_get "message" items)); [|now right].
    exfalso. cbn [negb orb] in Hstatus.
    destruct (get_or_create_bot cfg unconsulted now device_id false w)
      as [bot w1].
    destruct (method bot _ w1) as [[msg|[msg|success]] w2];
      try discriminate Hstatus.
    destruct (truthy (PyDict success)); discriminate Hstatus.
  - intros Hauth. subst answer handled. unfold App.send_message.
    now apply authorised_runs.
  - subst answer handled. unfold App.send_message, require_api_key.
    destruct (truthy (of_option_str (API_KEY cfg))); [|now left].
    destruct (negb (truthy (of_option_str provided_key))
              || negb (bool_decide (provided_key = API_KEY cfg)));
      [now right|now left].
Qed.

Lemma send_route_missing_field_witness :
  send_message_handler cfg all_fine 0 "t" "default" (PyInt 0) start
  = (fields_required, start)
  /\ send_message_handler cfg all_fine 0 "t" "default"
       (PyDict [("phone", PyStr "9876543210"); ("message", PyList [])]) start
     = (fields_required, start)
  /\ send_message_handler cfg all_fine 0 "t" "default"
       (PyList [PyStr "9876543210"; PyStr "hello"]) start
     = (internal_server_error, start)
  /\ App.send_message cfg None all_fine 0 "t" "default" PyNone start
     = send_message_handler cfg all_fine 0 "t" "default" PyNone start.
Proof.
  split; [|split; [|split]].
  - destruct (send_route_missing_field cfg None all_fine 0 "t" "default"
                (PyInt 0) start) as (Hfalse & _).
    apply Hfalse. reflexivity.
  - destruct (send_route_missing_field cfg None all_fine 0 "t" "default"
                (PyDict [("phone", PyStr "9876543210"); ("message", PyList [])])
                start) as (_ & Hmissing & _).
    apply (Hmissing [("phone", PyStr "9876543210"); ("message", PyList [])]);
      [reflexivity|right; reflexivity].
  - destruct (send_route_missing_field cfg None all_fine 0 "t" "default"
                (PyList [PyStr "9876543210"; PyStr "hello"]) start)
      as (_ & _ & Hraises & _).
    apply Hraises; [reflexivity|discriminate].
  - destruct (send_route_missing_field cfg None all_fine 0 "t" "default" PyNone
                start) as (_ & _ & _ & _ & Hauth & _).
    apply Hauth. left. reflexivity.
Defined.

(** The send route on fields that are not strings, for a session whose
    browser runs and whose chat loads: a number as phone is answered with
    500 and the error of the slice; a list of digit strings is taken for
    the digits it holds, and the message goes out to that number; a number
    as message fails in the text step, and the route still answers 200. *)
Lemma send_route_other_values :
  let w := snd (App.initialize_session cfg None linked 100 "t" "default"
                  (installed start)) in
  let answer := fun fields =>
    send_message_handler cfg all_fine 200 "t" "default" (PyDict fields) w in
  fst (answer [("phone", PyInt 9876543210); ("message", PyStr "hello")])
  = jsonify_status
      [("success", PyBool false);
       ("error", PyStr "'int' object is not subscriptable");
       ("device_id", PyStr "default"); ("timestamp", PyStr "t")] 500
  /\ fst (answer [("phone", PyList [PyStr "98765"; PyStr "43210"]);
                  ("message", PyStr "hello")])
     = jsonify
         [("success", PyBool true); ("device_id", PyStr "default");
          ("phone", PyList [PyStr "98765"; PyStr "43210"]);
          ("timestamp", PyStr "t")]
  /\ trace (os (snd (answer [("phone", PyList [PyStr "98765"; PyStr "43210"]);
                             ("message", PyStr "hello")])))
     = trace (os w)
       ++ [EvGet "https://web.whatsapp.com/send?phone=919876543210";
           EvSendText "hello"]
  /\ fst (Bot.send_message_values all_fine (PyStr "9876543210") (PyInt 5) ready)
     = inr (failure_dict "Failed to send text message")
  /\ status (fst (answer [("phone", PyStr "9876543210"); ("message", PyInt 5)]))
     = 200%nat.
Proof. vm_compute. repeat split; reflexivity. Qed.

End RouteAccess.

(** ** Sessions come and go *)

Section SessionCount.
Import Py App Scenario.

Lemma method_registry {A} bot (m : state -> A * state) w :
  bot_instances (snd (method bot m w)) = bot_instances w.
Proof.
  unfold method. destruct (heap w !! bot) as [self|]; [|reflexivity].
  now destruct (m (self, os w)) as [a [self' o]].
Qed.

Lemma method_other_objects {A} bot (m : state -> A * state) w other :
  other <> bot -> heap (snd (method bot m w)) !! other = heap w !! other.
Proof.
  intros Hne. unfold method. destruct (heap w !! bot) as [self|]; [|reflexivity].
  destruct (m (self, os w)) as [a [self' o]]. simpl.
  apply list_lookup_insert_ne. congruence.
Qed.


Lemma get_or_create_bot_objects cfg gc now device_id w bot self :
  heap w !! bot = Some self ->
  heap (snd (get_or_create_bot cfg gc now device_id false w)) !! bot = Some self.
Proof.
  intros Hself. unfold get_or_create_bot.
  destruct (bot_instances w !! device_id); [exact Hself|].
  unfold Bot.__init__. simpl. apply lookup_app_l_Some. exact Hself.
Qed.

Lemma get_or_create_bot_target cfg now device_id w :
  fst (get_or_create_bot cfg unconsulted now device_id false w)
  = default (length (heap w)) (bot_instances w !! device_id).
Proof.
  unfold get_or_create_bot.
  destruct (bot_instances w !! device_id); [reflexivity|].
  unfold Bot.__init__. reflexivity.
Qed.

Lemma qr_handler_world cfg now device_id w :
  let created := get_or_create_bot cfg unconsulted now device_id false w in
  exists m : state -> pyval * state,
    snd (get_qr_code_handler cfg now device_id w)
    = snd (method (fst created) m (snd created)).
Proof.
  intros created. exists (fun st => (get_qr_code_path st, st)).
  unfold get_qr_code_handler. fold created.
  destruct created as [bot w1]. simpl.
  destruct (method bot (fun st => (get_qr_code_path st, st)) w1)
    as [[msg|qr_path] w2]; [reflexivity|].
  simpl. destruct (truthy qr_path); [|reflexivity].
  destruct (path_exists qr_path (os w2)) as [msg|[|]]; try reflexivity;
    destruct qr_path; reflexivity.
Qed.

Lemma send_handler_world cfg env now timestamp device_id items w :
  truthy (dict_get "phone" items) = true ->
  truthy (dict_get "message" items) = true ->
  let created := get_or_create_bot cfg unconsulted now device_id false w in
  snd (send_message_handler cfg env now timestamp device_id (PyDict items) w)
  = snd (method (fst created)
           (Bot.send_message_values env (dict_get "phone" items)
              (dict_get "message" items))
           (snd created)).
Proof.
  intros Hphone Hmessage created. unfold send_message_handler.
  assert (truthy (PyDict items) = true) as ->.
  { destruct items; [discriminate Hphone|reflexivity]. }
  rewrite Hphone, Hmessage. cbn [negb orb]. fold created.
  destruct created as [bot w1]. cbn [fst snd].
  destruct (method bot _ w1) as [[msg|[msg|success]] w2]; try reflexivity.
  now destruct (truthy (PyDict success)).
Qed.

(** Whatever the body, the send route either changes nothing or does what
    one method call on the session of the device id does. *)
Lemma send_handler_cases cfg env now timestamp device_id json w :
  let created := get_or_create_bot cfg unconsulted now device_id false w in
  snd (send_message_handler cfg env now timestamp device_id json w) = w
  \/ exists phone message,
       snd (send_message_handler cfg env now timestamp device_id json w)
       = snd (method (fst created) (Bot.send_message_values env phone message)
                (snd created)).
Proof.
  intros created.
  assert (forall items,
            snd (send_message_handler cfg env now timestamp device_id
                   (PyDict items) w) = w
            \/ exists phone message,
                 snd (send_message_handler cfg env now timestamp device_id
                        (PyDict items) w)
                 = snd (method (fst created)
                          (Bot.send_message_values env phone message)
                          (snd created))) as Hdict.
  { intros items.
    destruct (truthy (dict_get "phone" items)) eqn:Hphone;
      [|left; unfold send_message_handler;
        destruct (truthy (PyDict items)); [now rewrite Hphone|reflexivity]].
    destruct (truthy (dict_get "message" items)) eqn:Hmessage;
      [|left; unfold send_message_handler;
        destruct (truthy (PyDict items));
        [now rewrite Hphone, Hmessage|reflexivity]].
    right. eexists _, _.
    apply (send_handler_world cfg env now timestamp device_id items w Hphone
             Hmessage). }
  destruct json; try apply Hdict; left; unfold send_message_handler;
    match goal with |- context [truthy ?v] => now destruct (truthy v) end.
Qed.

Lemma initialize_handler_world cfg env now timestamp device_id w :
  let created := get_or_create_bot cfg unconsulted now device_id false w in
  snd (initialize_session_handler cfg env now timestamp device_id w) = snd created
  \/ snd (initialize_session_handler cfg env now timestamp device_id w)
     = snd (method (fst created) (Bot.initialize_session env) (snd created)).
Proof.
  intros created. unfold initialize_session_handler. fold created.
  destruct created as [bot w1]. simpl.
  destruct (heap w1 !! bot) as [self|]; [|now left].
  destruct (is_authenticated self); [now left|]. right.
  destruct (method bot (Bot.initialize_session env) w1)
    as [[msg|result] w2]; [reflexivity|].
  simpl. now destruct (truthy (dict_get "success" result)).
Qed.









Lemma delete_handler_objects cenv device_id w other :
  bot_instances w !! device_id <> Some other ->
  heap (snd (delete_session_handler cenv device_id w)) !! other = heap w !! other.
Proof.
  intros Hne. unfold delete_session_handler.
  destruct (bot_instances w !! device_id) as [bot|] eqn:Hreg; [|reflexivity].
  pose proof (method_other_objects bot (fun st => (tt, Bot.close cenv st)) w other)
    as Hother.
  destruct (method bot (fun st => (tt, Bot.close cenv st)) w) as [[msg|[]] w1];
    simpl in *; apply Hother; congruence.
Qed.



(** A request for one device id leaves the others alone: the registry
    entry of every other device id is as before, and so is every session
    object except the one registered under the id of the request. This
    holds for the scan-code, send, initialize and delete routes. *)
Theorem routes_leave_other_sessions cfg senv ienv cenv now timestamp device_id
    json w :
  let after_qr := snd (get_qr_code_handler cfg now device_id w) in
  let after_send := snd (send_message_handler cfg senv now timestamp device_id
                           json w) in
  let after_init := snd (initialize_session_handler cfg ienv now timestamp
                           device_id w) in
  let after_delete := snd (delete_session_handler cenv device_id w) in
  forall w', w' ∈ [after_qr; after_send; after_init; after_delete] ->
    (forall other_id, other_id <> device_id ->
       bot_instances w' !! other_id = bot_instances w !! other_id)
    /\ (forall other self,
          heap w !! other = Some self ->
          bot_instances w !! device_id <> Some other ->
          heap w' !! other = Some self).
Proof.
  intros after_qr after_send after_init after_delete w' Hin.
  assert (forall {A} (m : state -> A * state),
            let created := get_or_create_bot cfg unconsulted now device_id false w in
            let w1 := snd (method (fst created) m (snd created)) in
            (forall other_id, other_id <> device_id ->
               bot_instances w1 !! other_id = bot_instances w !! other_id)
            /\ (forall other self,
                  heap w !! other = Some self ->
                  bot_instances w !! device_id <> Some other ->
                  heap w1 !! other = Some self)) as Hmethod.
  { intros A m created w1. subst w1. split.
    - intros other_id Hne. rewrite method_registry.
      subst created. rewrite get_or_create_bot_registry.
      now rewrite lookup_insert_ne.
    - intros other self Hself Hnot.
      rewrite method_other_objects.
      + now apply get_or_create_bot_objects.
      + subst created. rewrite get_or_create_bot_target.
        destruct (bot_instances w !! device_id) as [bot|]; simpl.
        * congruence.
        * apply lookup_lt_Some in Hself. lia. }
  assert (let created := get_or_create_bot cfg unconsulted now device_id false w in
          (forall other_id, other_id <> device_id ->
             bot_instances (snd created) !! other_id = bot_instances w !! other_id)
          /\ (forall other self,
                heap w !! other = Some self ->
                bot_instances w !! device_id <> Some other ->
                heap (snd created) !! other = Some self)) as Hcreate.
  { intros created. split.
    - intros other_id Hne. subst created. rewrite get_or_create_bot_registry.
      now rewrite lookup_insert_ne.
    - intros other self Hself _. now apply get_or_create_bot_objects. }
  assert ((forall other_id, other_id <> device_id ->
             bot_instances w !! other_id = bot_instances w !! other_id)
          /\ (forall other self,
                heap w !! other = Some self ->
                bot_instances w !! device_id <> Some other ->
                heap w !! other = Some self)) as Hsame by (split; auto).
  apply elem_of_cons in Hin as [->|Hin].
  { subst after_qr. destruct (qr_handler_world cfg now device_id w) as [m ->].
    apply Hmethod. }
  apply elem_of_cons in Hin as [->|Hin].
  { subst after_send.
    destruct (send_handler_cases cfg senv now timestamp device_id json w)
      as [-> | (phone & message & ->)]; [exact Hsame|apply Hmethod]. }
  apply elem_of_cons in Hin as [->|Hin].
  { subst after_init.
    destruct (initialize_handler_world cfg ienv now timestamp device_id w)
      as [-> | ->]; [apply Hcreate|apply Hmethod]. }
  apply list_elem_of_singleton in Hin as ->. subst after_delete. split.
  - intros other_id Hne. unfold delete_session_handler.
    destruct (bot_instances w !! device_id) as [bot|]; [|reflexivity].
    pose proof (method_registry bot (fun st => (tt, Bot.close cenv st)) w) as Hreg.
    destruct (method bot (fun st => (tt, Bot.close cenv st)) w) as [[msg|[]] w1];
      simpl in *; rewrite ?lookup_delete_ne by congruence; now rewrite Hreg.
  - intros other self Hself Hnot. rewrite delete_handler_objects; assumption.
Qed.

End SessionCount.

(** ** Sweeping again *)

Section SweepAgain.
Import Py App Scenario.

Lemma cleanup_step_young cfg cenv current_time w device_id bot :
  old_at cfg current_time w bot = false ->
  cleanup_step cfg cenv current_time w (device_id, bot) = w.
Proof.
  unfold old_at, cleanup_step. destruct (heap w !! bot) as [self|]; [|reflexivity].
  now intros ->.
Qed.

Lemma sweep_of_young cfg cenv current_time (l : list (string * nat)) w :
  (forall device_id bot, (device_id, bot) ∈ l ->
     old_at cfg current_time w bot = false) ->
  foldl (cleanup_step cfg cenv current_time) w l = w.
Proof.
  induction l as [|[d b] rest IH]; intros Hyoung; cbn [foldl]; [reflexivity|].
  rewrite cleanup_step_young.
  - apply IH. intros device_id bot Hin. apply (Hyoung device_id). now right.
  - apply (Hyoung d). now left.
Qed.

Lemma swept_entries_young cfg cenv current_time w device_id bot :
  bot_instances (cleanup_old_sessions cfg cenv current_time w) !! device_id
  = Some bot ->
  bot_instances w !! device_id = Some bot
  /\ old_at cfg current_time w bot = false.
Proof.
  unfold cleanup_old_sessions. intros Hkept.
  destruct (bot_instances w !! device_id) as [bot0|] eqn:Hreg.
  - destruct (old_at cfg current_time w bot0) eqn:Hold.
    + rewrite (sweep_removes cfg cenv current_time _ w device_id bot0) in Hkept;
        [discriminate| |exact Hold].
      now apply elem_of_map_to_list.
    + rewrite sweep_keeps in Hkept.
      * rewrite Hreg in Hkept. injection Hkept as <-. now split.
      * intros bot' Hin. apply elem_of_map_to_list in Hin.
        assert (bot' = bot0) as -> by congruence. exact Hold.
  - rewrite sweep_stays_removed in Hkept; [discriminate|exact Hreg].
Qed.

Lemma old_at_earlier cfg current_time earlier w bot :
  earlier <= current_time ->
  old_at cfg current_time w bot = false ->
  old_at cfg earlier w bot = false.
Proof.
  unfold old_at, too_old. intros Hle.
  destruct (heap w !! bot) as [self|]; [|reflexivity].
  intros Hyoung%bool_decide_eq_false. apply bool_decide_eq_false. lia.
Qed.

(** A sweep leaves nothing for a second sweep to do: run again at the same
    clock reading, or at an earlier one, it changes nothing at all -
    registry, objects, files and browsers stay as the first sweep left
    them. *)
Theorem cleanup_old_sessions_again cfg cenv cenv' current_time earlier w :
  earlier <= current_time ->
  cleanup_old_sessions cfg cenv' earlier
    (cleanup_old_sessions cfg cenv current_time w)
  = cleanup_old_sessions cfg cenv current_time w.
Proof.
  intros Hle. unfold cleanup_old_sessions at 1.
  apply sweep_of_young. intros device_id bot Hin.
  apply elem_of_map_to_list in Hin.
  apply swept_entries_young in Hin as [_ Hyoung].
  apply (old_at_earlier cfg current_time earlier _ bot Hle).
  unfold cleanup_old_sessions.
  now rewrite (evolves_old_at cfg current_time w _ bot
                 (sweep_evolves cfg cenv current_time _ w)).
Qed.

Lemma cleanup_old_sessions_again_witness :
  cleanup_old_sessions cfg (fun _ => quiet) 1900
    (cleanup_old_sessions cfg flaky 1900 two_sessions)
  = cleanup_old_sessions cfg flaky 1900 two_sessions.
Proof. apply cleanup_old_sessions_again. lia. Defined.

End SweepAgain.

(** ** What a send or an initialization can do to a session *)

Section Frame.
Import Py App.

(** A relation between the state before and after that every single step
    of a method respects - for the log, the steps that add an [allowed]
    call - is respected by the methods built from them. *)
Context (R : state -> state -> Prop) (allowed : event -> Prop).
Hypothesis R_refl : forall st, R st st.
Hypothesis R_trans : forall a b c, R a b -> R b c -> R a c.
Hypothesis R_flag : forall st, R st (set_is_authenticated true (fst st), snd st).
Hypothesis R_handle : forall st h, R st (set_driver (Some h) (fst st), snd st).
Hypothesis R_log : forall st ev, allowed ev -> R st (fst st, log ev (snd st)).
Hypothesis R_mkdir : forall st p, R st (fst st, makedirs p (snd st)).
Hypothesis R_write :
  forall st p, R st (fst st, with_files (files (snd st) ∪ {[p]}) (snd st)).
Hypothesis R_launch :
  forall st h d,
    R st (fst st, mkOS (files (snd st)) (live (snd st) ∪ {[h]}) (S h)
                       (trace (snd st) ++ [EvLaunch h d])).
Hypothesis allowed_get : forall url, allowed (EvGet url).

Ltac frame_step :=
  lazymatch goal with
  | |- triple _ _ (ret _) => apply triple_ret; [apply R_refl | exact I]
  | |- triple _ _ (raise _) => apply triple_raise, R_refl
  | |- triple _ _ (bind _ _) => eapply (triple_bind _ R_trans any); [| intros ? _]
  | |- triple _ _ (try_except _ _) => apply (triple_try_except _ R_trans); [| intros ?]
  | |- triple _ _ get_self => apply triple_get_self, R_refl
  | |- triple _ _ get_os => apply triple_get_os, R_refl
  | |- triple _ _ (modify_self (set_is_authenticated true)) =>
      apply triple_modify_self, R_flag
  | |- triple _ _ (modify_self (set_driver (Some _))) =>
      apply triple_modify_self; intros ?; apply R_handle
  | |- triple _ _ (modify_os (log _)) =>
      apply triple_modify_os; intros ?; apply R_log
  | |- triple _ _ (modify_os (makedirs _)) =>
      apply triple_modify_os; intros ?; apply R_mkdir
  | |- triple _ _ (match ?x with _ => _ end) => destruct x
  end.

Lemma frame_driver_get outcome url : triple R any (driver_get outcome url).
Proof. unfold driver_get. repeat frame_step. apply allowed_get. Qed.

Lemma frame_wait_until p : triple R any (wait_until p).
Proof. unfold wait_until. repeat frame_step. Qed.

Lemma frame_check_authentication p : triple R any (_check_authentication p).
Proof.
  unfold _check_authentication. frame_step; [apply frame_wait_until|].
  repeat frame_step.
Qed.

Lemma frame_save_qr_code saved : triple R any (_save_qr_code saved).
Proof.
  unfold _save_qr_code. frame_step; [frame_step|]. frame_step; [|frame_step].
  frame_step; [|frame_step]. apply triple_modify_os. intros st. apply R_write.
Qed.

Lemma frame_wait_for_authentication polls :
  triple R any (_wait_for_authentication polls).
Proof.
  unfold _wait_for_authentication. frame_step; [|frame_step].
  induction polls as [|p rest IH]; simpl; [frame_step|].
  frame_step; [apply frame_check_authentication|].
  frame_step; [repeat frame_step|exact IH].
Qed.

Lemma frame_launch_chrome user_data_dir : triple R any (launch_chrome user_data_dir).
Proof.
  unfold launch_chrome. frame_step; [frame_step|].
  frame_step; [|frame_step].
  apply triple_modify_os. intros st. apply R_launch.
Qed.

Lemma frame_setup_driver e : triple R any (_setup_driver e).
Proof.
  unfold _setup_driver. frame_step; [|frame_step].
  frame_step; [frame_step|].
  frame_step; [frame_step|].
  frame_step; [frame_step|].
  frame_step; [frame_step|].
  frame_step; [frame_step|].
  frame_step; try (frame_step; [apply frame_launch_chrome|frame_step]).
  frame_step.
Qed.

Lemma frame_initialize_session_body e : triple R any (initialize_session_body e).
Proof.
  unfold initialize_session_body.
  frame_step; [apply frame_setup_driver|].
  frame_step; [frame_step|].
  frame_step; [frame_step|].
  frame_step; [apply frame_driver_get|].
  frame_step; [apply frame_check_authentication|].
  frame_step; [frame_step|].
  frame_step; [apply frame_wait_until|].
  frame_step.
  - frame_step; [apply frame_save_qr_code|].
    frame_step; [apply frame_wait_for_authentication|].
    repeat frame_step.
  - frame_step; [apply frame_check_authentication|].
    repeat frame_step.
Qed.

Lemma frame_initialize_session e st : R st (snd (Bot.initialize_session e st)).
Proof.
  apply (triple_run_total R any _ failure_dict (frame_initialize_session_body e)).
  intros msg. exact I.
Qed.

Lemma frame_reinitialize e : triple R any (reinitialize e).
Proof.
  unfold reinitialize. frame_step.
  - apply triple_lift_total. intros st. split; [apply frame_initialize_session|exact I].
  - repeat frame_step.
Qed.

Lemma frame_prelude e :
  triple R any (ensure_driver e) /\ triple R any (ensure_authenticated e).
Proof.
  split.
  - unfold ensure_driver. frame_step; [frame_step|].
    frame_step; [frame_step|apply frame_reinitialize].
  - unfold ensure_authenticated. frame_step; [frame_step|].
    frame_step; [frame_step|].
    frame_step; [apply frame_check_authentication|].
    frame_step; [frame_step|apply frame_reinitialize].
Qed.

Lemma frame_dispatch e phone_number message media_path :
  (forall text, message = Some text -> str_nonempty text = true ->
     allowed (EvSendText text)) ->
  (forall path, media_path = Some path -> str_nonempty path = true ->
     allowed (EvSendMedia path)) ->
  triple R any (dispatch e phone_number message media_path).
Proof.
  intros Htext Hmedia. unfold dispatch.
  frame_step; [apply frame_driver_get|].
  frame_step; [apply frame_wait_until|].
  frame_step; [frame_step|].
  frame_step; [frame_step|].
  frame_step.
  - destruct media_path as [path|]; [|frame_step].
    destruct (str_nonempty path) eqn:Hpath; simpl; [|frame_step].
    frame_step; [|frame_step].
    frame_step; [|frame_step].
    unfold _send_media. frame_step; [frame_step|].
    frame_step; [|repeat frame_step].
    apply triple_modify_os. intros st. apply R_log. now apply Hmedia.
  - destruct message as [text|]; [|frame_step].
    destruct (str_nonempty text) eqn:Hne; [|frame_step].
    frame_step; [|repeat frame_step].
    unfold _send_text_message. frame_step; [frame_step|].
    frame_step; [|repeat frame_step].
    apply triple_modify_os. intros st. apply R_log. now apply Htext.
Qed.

Lemma frame_send_message e phone_number message media_path st :
  (forall text, message = Some text -> str_nonempty text = true ->
     allowed (EvSendText text)) ->
  (forall path, media_path = Some path -> str_nonempty path = true ->
     allowed (EvSendMedia path)) ->
  R st (snd (Bot.send_message e phone_number message media_path st)).
Proof.
  intros Htext Hmedia.
  apply (triple_run_total R any _ failure_dict); [|intros msg; exact I].
  unfold send_message_body. destruct (frame_prelude e) as [Hdriver Hauth].
  frame_step; [exact Hdriver|].
  frame_step; [frame_step|].
  frame_step; [exact Hauth|].
  frame_step; [frame_step|].
  now apply frame_dispatch.
Qed.

End Frame.

Section NeverUndoes.
Import Py App Scenario.

Lemma never_undoes_refl st : never_undoes st st.
Proof.
  repeat split; auto. exists []. split; [now rewrite app_nil_r|].
  intros h Hin. now apply elem_of_nil in Hin.
Qed.

Lemma never_undoes_trans a b c :
  never_undoes a b -> never_undoes b c -> never_undoes a c.
Proof.
  intros (Hf1 & Hd1 & Hfs1 & Hl1 & add1 & Ht1 & Hq1)
         (Hf2 & Hd2 & Hfs2 & Hl2 & add2 & Ht2 & Hq2).
  split; [auto|]. split; [auto|].
  split; [etransitivity; eassumption|].
  split; [etransitivity; eassumption|].
  exists (add1 ++ add2). split; [now rewrite Ht2, Ht1, app_assoc|].
  intros h [Hin|Hin]%elem_of_app; [now apply (Hq1 h)|now apply (Hq2 h)].
Qed.

Lemma never_undoes_log st ev :
  not_a_quit ev -> never_undoes st (fst st, log ev (snd st)).
Proof.
  intros Hev. repeat split; auto. exists [ev]. split; [reflexivity|].
  intros h Hin. apply list_elem_of_singleton in Hin. now apply (Hev h).
Qed.

Lemma never_undoes_files st fs :
  files (snd st) ⊆ fs -> never_undoes st (fst st, with_files fs (snd st)).
Proof.
  intros Hsub. split; [auto|]. split; [auto|]. split; [exact Hsub|].
  split; [reflexivity|]. exists []. split; [simpl; now rewrite app_nil_r|].
  intros h Hin. now apply elem_of_nil in Hin.
Qed.

Lemma never_undoes_launch st h d :
  never_undoes st
    (fst st, mkOS (files (snd st)) (live (snd st) ∪ {[h]}) (S h)
                  (trace (snd st) ++ [EvLaunch h d])).
Proof.
  split; [auto|]. split; [auto|]. split; [reflexivity|].
  split; [apply union_subseteq_l|]. exists [EvLaunch h d].
  split; [reflexivity|].
  intros h' Hin. apply list_elem_of_singleton in Hin. discriminate.
Qed.

Lemma never_undoes_self st self' :
  (is_authenticated (fst st) = true -> is_authenticated self' = true) ->
  (is_Some (driver (fst st)) -> is_Some (driver self')) ->
  never_undoes st (self', snd st).
Proof.
  intros Hflag Hhandle. split; [exact Hflag|]. split; [exact Hhandle|].
  split; [reflexivity|]. split; [reflexivity|].
  exists []. split; [now rewrite app_nil_r|].
  intros h Hin. now apply elem_of_nil in Hin.
Qed.

(** Neither a send nor an initialization takes anything back: a set
    [is_authenticated] flag stays set and a driver handle stays present,
    every file and every running browser is still there afterwards, and
    the calls they make include no [quit]. Only [close] does those. *)
Theorem send_and_initialize_never_undo senv ienv phone_number message
    media_path st :
  never_undoes st
    (snd (Bot.send_message senv phone_number message media_path st))
  /\ never_undoes st (snd (Bot.initialize_session ienv st)).
Proof.
  assert (forall st, never_undoes st (set_is_authenticated true (fst st), snd st))
    as Hflag by (intros s; apply never_undoes_self; auto).
  assert (forall st h, never_undoes st (set_driver (Some h) (fst st), snd st))
    as Hhandle by (intros s h; apply never_undoes_self; simpl; eauto).
  assert (forall st p, never_undoes st (fst st, makedirs p (snd st))) as Hmkdir.
  { intros s p. apply never_undoes_files.
    etransitivity; [|apply union_subseteq_l]. apply union_subseteq_l. }
  assert (forall st p,
            never_undoes st (fst st, with_files (files (snd st) ∪ {[p]}) (snd st)))
    as Hwrite by (intros s p; apply never_undoes_files, union_subseteq_l).
  split.
  - apply (frame_send_message never_undoes not_a_quit never_undoes_refl
             never_undoes_trans Hflag Hhandle never_undoes_log Hmkdir Hwrite
             never_undoes_launch);
      intros; intros h; discriminate.
  - apply (frame_initialize_session never_undoes not_a_quit never_undoes_refl
             never_undoes_trans Hflag Hhandle never_undoes_log Hmkdir Hwrite
             never_undoes_launch).
    intros url h. discriminate.
Qed.

End NeverUndoes.

Section NothingToSend.
Import Py App Scenario.

Lemma sends_nothing_refl st : sends_nothing st st.
Proof.
  exists []. split; [now rewrite app_nil_r|].
  intros ev Hin. now apply elem_of_nil in Hin.
Qed.

Lemma sends_nothing_trans a b c :
  sends_nothing a b -> sends_nothing b c -> sends_nothing a c.
Proof.
  intros (add1 & Ht1 & Hq1) (add2 & Ht2 & Hq2).
  exists (add1 ++ add2). split; [now rewrite Ht2, Ht1, app_assoc|].
  intros ev [Hin|Hin]%elem_of_app; [now apply Hq1|now apply Hq2].
Qed.

Lemma sends_nothing_log st ev :
  not_a_send ev -> sends_nothing st (fst st, log ev (snd st)).
Proof.
  intros Hev. exists [ev]. split; [reflexivity|].
  intros ev' Hin. apply list_elem_of_singleton in Hin. subst ev'. exact Hev.
Qed.

Lemma sends_nothing_quiet st st' :
  trace (snd st') = trace (snd st) -> sends_nothing st st'.
Proof.
  intros Heq. exists []. split; [now rewrite app_nil_r|].
  intros ev Hin. now apply elem_of_nil in Hin.
Qed.

(** A send with nothing to send - no text or an empty one, no media path
    or an empty one - sends nothing, whatever else it does on the way
    (launching, loading pages); and on a linked session with a running
    browser whose chat loads it reports success. *)
Theorem send_message_nothing_to_send e phone_number message media_path st :
  message = None \/ message = Some EmptyString ->
  media_path = None \/ media_path = Some EmptyString ->
  let run := Bot.send_message e phone_number message media_path st in
  sends_nothing st (snd run)
  /\ (forall h, driver (fst st) = Some h ->
        is_authenticated (fst st) = true ->
        open_chat e = None ->
        chat_load e = Present ->
        fst run = success_dict
        /\ snd run
           = (fst st,
              log (EvGet ("https://web.whatsapp.com/send?phone="
                          +:+ Phone.normalize_phone phone_number)) (snd st))).
Proof.
  intros Hmessage Hmedia run. subst run. split.
  - apply (frame_send_message sends_nothing not_a_send sends_nothing_refl
             sends_nothing_trans).
    + intros s. now apply sends_nothing_quiet.
    + intros s h. now apply sends_nothing_quiet.
    + apply sends_nothing_log.
    + intros s p. now apply sends_nothing_quiet.
    + intros s p. now apply sends_nothing_quiet.
    + intros s h d. exists [EvLaunch h d]. split; [reflexivity|].
      intros ev Hin. apply list_elem_of_singleton in Hin. now subst ev.
    + intros url. exact I.
    + intros text -> Hne. destruct Hmessage as [|[= ->]]; discriminate.
    + intros path -> Hne. destruct Hmedia as [|[= ->]]; discriminate.
  - intros h Hdrv Hauth Hopen Hload.
    destruct st as [[did hl drv sd qr auth url pd la] o]. simpl in Hdrv, Hauth.
    subst drv auth.
    unfold Bot.send_message, run_total, send_message_body, ensure_driver,
      ensure_authenticated, dispatch, driver_get, _wait_for_chat_to_load,
      wait_until, bind, ret, get_self, get_os, modify_os.
    simpl. rewrite Hopen, Hload. simpl.
    destruct Hmessage as [Hm|Hm], Hmedia as [Hp|Hp]; subst message media_path;
      simpl; now split.
Qed.

Lemma send_message_nothing_to_send_witness :
  Bot.send_message all_fine "9876543210" (Some EmptyString) None ready
  = (success_dict,
     (fst ready,
      log (EvGet ("https://web.whatsapp.com/send?phone="
                  +:+ Phone.normalize_phone "9876543210")) (snd ready))).
Proof.
  destruct (send_message_nothing_to_send all_fine "9876543210"
              (Some EmptyString) None ready) as [_ Hready];
    [right; reflexivity|left; reflexivity|].
  destruct (Hready 0%nat) as [Hres Hst]; [vm_compute; reflexivity..|].
  now apply injective_projections.
Defined.

End NothingToSend.

(** ** How an initialization and a send end *)

Section Outcomes.
Import Py App Scenario.

Lemma set_is_authenticated_twice self :
  set_is_authenticated true (set_is_authenticated true self)
  = set_is_authenticated true self.
Proof. reflexivity. Qed.

Lemma wait_for_authentication_loop_run polls self o :
  exists outcome,
    wait_for_authentication_loop polls (self, o)
    = (outcome,
       (match outcome with
        | inr true => set_is_authenticated true self
        | _ => self
        end, o)).
Proof.
  induction polls as [|p rest IH]; simpl.
  - now exists (inr false).
  - unfold bind, _check_authentication, wait_until, bind, get_self, ret, raise,
      modify_self.
    simpl. destruct (driver self) as [h|]; simpl.
    + destruct p as [| |msg]; simpl.
      * now exists (inr true).
      * exact IH.
      * now exists (inl msg).
    + now exists (inl (none_has_no "find_element")).
Qed.

Lemma wait_for_authentication_run polls self o :
  exists b : bool,
    _wait_for_authentication polls (self, o)
    = (inr b, (if b then set_is_authenticated true self else self, o)).
Proof.
  unfold _wait_for_authentication, try_except.
  destruct (wait_for_authentication_loop_run polls self o) as [outcome ->].
  destruct outcome as [msg|[|]].
  - now exists false.
  - now exists true.
  - now exists false.
Qed.

Ltac init_cbn :=
  cbn -[_wait_for_authentication makedirs _find_chrome_executable
        _find_chromedriver_executable log].

Ltac run_initialize :=
  unfold Bot.initialize_session, run_total, initialize_session_body,
    _setup_driver, launch_chrome, driver_get, _check_authentication,
    _wait_for_qr_code, wait_until, _save_qr_code, try_except, bind, ret, raise,
    get_self, get_os, modify_self, modify_os;
  init_cbn.

Ltac init_loop :=
  match goal with
  | |- context [_wait_for_authentication ?p (?s, ?o)] =>
      let b := fresh "b" in
      destruct (wait_for_authentication_run p s o) as [b ->]; destruct b
  end.

Ltac init_finish :=
  init_cbn; unfold init_result_shape;
  repeat split; intros; try discriminate; try reflexivity; eauto.

Lemma initialize_session_run e st :
  let run := Bot.initialize_session e st in
  (truthy (dict_get "success" (fst run)) = true ->
     is_authenticated (fst (snd run)) = true
     /\ is_Some (driver (fst (snd run))))
  /\ (truthy (dict_get "success" (fst run)) = false ->
      is_authenticated (fst (snd run)) = is_authenticated (fst st))
  /\ (dict_get "qr_required" (fst run) = PyBool true ->
      qr_wait e = Present /\ auth_first e = TimedOut)
  /\ init_result_shape (fst run).
Proof.
  destruct st as [[did hl drv sd qrp auth url pd la] o].
  destruct e as [wh ch lp a1 qw qs ap a2].
  run_initialize.
  destruct (truthy (of_option_str (_find_chrome_executable wh o)));
    init_cbn; [|init_finish].
  destruct (truthy (of_option_str (_find_chromedriver_executable wh o)));
    init_cbn; [|init_finish].
  destruct ch; init_cbn; [init_finish|init_finish|].
  destruct lp; init_cbn; [init_finish|].
  destruct a1; init_cbn; [init_finish| |init_finish].
  destruct qw; init_cbn; [| |init_finish].
  - destruct qs; init_cbn; init_loop; init_finish.
  - destruct a2; init_finish.
Qed.

(** An initialization that reports success leaves the session with a
    driver handle and with [is_authenticated] set; one that reports failure
    leaves the flag as it was. [qr_required] is true only if the first
    check found no chat list and the scan code then showed. The result is
    always [{success: True, qr_required}] or [{success: False, error}]. *)
Theorem initialize_session_outcome e st :
  let run := Bot.initialize_session e st in
  (truthy (dict_get "success" (fst run)) = true ->
     is_authenticated (fst (snd run)) = true
     /\ is_Some (driver (fst (snd run))))
  /\ (truthy (dict_get "success" (fst run)) = false ->
      is_authenticated (fst (snd run)) = is_authenticated (fst st))
  /\ (dict_get "qr_required" (fst run) = PyBool true ->
      qr_wait e = Present /\ auth_first e = TimedOut)
  /\ init_result_shape (fst run).
Proof. apply initialize_session_run. Qed.

Lemma initialize_session_outcome_witness :
  let linked_run := Bot.initialize_session linked fresh in
  let unscanned_run := Bot.initialize_session unscanned fresh in
  let scanned_run := Bot.initialize_session scanned fresh in
  (is_authenticated (fst (snd linked_run)) = true
   /\ is_Some (driver (fst (snd linked_run))))
  /\ is_authenticated (fst (snd unscanned_run)) = is_authenticated (fst fresh)
  /\ (qr_wait scanned = Present /\ auth_first scanned = TimedOut).
Proof.
  split; [|split].
  - apply (initialize_session_outcome linked fresh). vm_compute. reflexivity.
  - apply (initialize_session_outcome unscanned fresh). vm_compute. reflexivity.
  - apply (initialize_session_outcome scanned fresh). vm_compute. reflexivity.
Defined.

(** *** The result of a send *)

Lemma reinitialize_failure e :
  triple always
    (fun early => forall result, early = Some result ->
                  exists error, result = failure_dict error)
    (reinitialize e).
Proof.
  intros st. split; [exact I|]. intros early.
  unfold reinitialize, bind, lift_total, ret.
  destruct (initialize_session_run e st) as (_ & _ & _ & Hshape).
  destruct (Bot.initialize_session e st) as [init_result st1]. simpl in *.
  destruct (negb (truthy (dict_get "success" init_result))) eqn:Hfail; simpl.
  - intros [= <-] result [= <-].
    destruct Hshape as [[qr_required ->]|Hfailure]; [discriminate|exact Hfailure].
  - now intros [= <-].
Qed.

Lemma prelude_failure e :
  triple always
    (fun early => forall result, early = Some result ->
                  exists error, result = failure_dict error)
    (ensure_driver e)
  /\ triple always
       (fun early => forall result, early = Some result ->
                     exists error, result = failure_dict error)
       (ensure_authenticated e).
Proof.
  split.
  - unfold ensure_driver.
    eapply (triple_bind _ always_trans any);
      [apply triple_get_self, always_refl|].
    intros self _. destruct (driver self); [|apply reinitialize_failure].
    apply triple_ret; [apply always_refl|discriminate].
  - unfold ensure_authenticated.
    eapply (triple_bind _ always_trans any);
      [apply triple_get_self, always_refl|].
    intros self _. destruct (is_authenticated self).
    { apply triple_ret; [apply always_refl|discriminate]. }
    eapply (triple_bind _ always_trans any).
    + intros st. split; [exact I|]. now intros.
    + intros authenticated _. destruct authenticated;
        [|apply reinitialize_failure].
      apply triple_ret; [apply always_refl|discriminate].
Qed.

Lemma dispatch_result e phone_number message media_path :
  triple always send_result (dispatch e phone_number message media_path).
Proof.
  intros st. split; [exact I|]. intros result.
  destruct st as [[did hl drv sd qrp auth url pd la] o].
  unfold dispatch, driver_get, _wait_for_chat_to_load, wait_until, _send_media,
    _send_text_message, bind, ret, raise, get_self, get_os, modify_os,
    send_result.
  simpl. destruct drv as [h|]; simpl; [|discriminate].
  destruct (open_chat e); simpl; [discriminate|].
  destruct (chat_load e); simpl; try discriminate;
    [|intros [= <-]; right; eauto].
  destruct media_path as [path|]; simpl.
  - destruct (str_nonempty path && exists_path path _); simpl.
    + destruct message as [text|]; simpl; [|intros [= <-]; now left].
      destruct (str_nonempty text); simpl; [|intros [= <-]; now left].
      destruct (negb (text_sent e)); simpl; intros [= <-]; [right; eauto|now left].
    + destruct message as [text|]; simpl; [|intros [= <-]; now left].
      destruct (str_nonempty text); simpl; [|intros [= <-]; now left].
      destruct (negb (text_sent e)); simpl; intros [= <-]; [right; eauto|now left].
  - destruct message as [text|]; simpl; [|intros [= <-]; now left].
    destruct (str_nonempty text); simpl; [|intros [= <-]; now left].
    destruct (negb (text_sent e)); simpl; intros [= <-]; [right; eauto|now left].
Qed.

(** On a phone number that is a [str], with a text or none and a media
    path or none, [send_message] returns one of two dicts. *)
Lemma send_message_str_result e phone_number message media_path st :
  send_result (fst (Bot.send_message e phone_number message media_path st)).
Proof.
  apply (triple_run_total always send_result _ failure_dict);
    [|intros msg; right; eauto].
  unfold send_message_body. destruct (prelude_failure e) as [Hdriver Hauth].
  eapply (triple_bind _ always_trans _); [exact Hdriver|].
  intros [init_result|] Hearly.
  { apply triple_ret; [apply always_refl|]. right. now apply Hearly. }
  eapply (triple_bind _ always_trans _); [exact Hauth|].
  intros [init_result|] Hearly'.
  { apply triple_ret; [apply always_refl|]. right. now apply Hearly'. }
  apply dispatch_result.
Qed.

Lemma dispatch_values_result e phone_number message :
  triple always send_result (dispatch_values e phone_number message).
Proof.
  intros st. split; [exact I|]. intros result.
  unfold dispatch_values, bind.
  destruct (lift_sum (clean_phone_of phone_number) st) as [[msg|clean] st0];
    [discriminate|].
  destruct (log_phone phone_number st0) as [[msg|[]] st1]; [discriminate|].
  destruct (driver_get (open_chat e) _ st1) as [[msg|[]] st2]; [discriminate|].
  destruct (_wait_for_chat_to_load (chat_load e) st2) as [[msg|loaded] st3];
    [discriminate|].
  destruct loaded; cbn [negb]; [|intros [= <-]; right; eauto].
  destruct (truthy message); [|intros [= <-]; now left].
  destruct (_send_text_message_value (text_sent e) message st3)
    as [[msg|sent] st4]; [discriminate|].
  destruct sent; cbn [negb]; intros [= <-]; [now left|right; eauto].
Qed.

Lemma send_message_values_body_result e phone_number message :
  triple always send_result (send_message_values_body e phone_number message).
Proof.
  unfold send_message_values_body. destruct (prelude_failure e) as [Hdriver Hauth].
  eapply (triple_bind _ always_trans _); [exact Hdriver|].
  intros [init_result|] Hearly.
  { apply triple_ret; [apply always_refl|]. right. now apply Hearly. }
  eapply (triple_bind _ always_trans _); [exact Hauth|].
  intros [init_result|] Hearly'.
  { apply triple_ret; [apply always_refl|]. right. now apply Hearly'. }
  apply dispatch_values_result.
Qed.

(** [send_message] as the route calls it, on any two values. Whenever it
    returns, the result is [{success: True}] or [{success: False, error}].
    It raises from its own [except] handler only, with the error of
    [phone_number[:5]]: never for a phone number that is a [str] or a
    list, and always for any other phone number once the session has a
    driver handle and is authenticated. *)
Theorem send_message_result_shape e phone_number message st :
  let run := send_message_values e phone_number message st in
  (forall result, fst run = inr result -> send_result result)
  /\ (forall msg, fst run = inl msg -> slice_raises phone_number = Some msg)
  /\ (slice_raises phone_number = None ->
      exists result, fst run = inr result /\ send_result result)
  /\ (forall msg, slice_raises phone_number = Some msg ->
        is_Some (driver (fst st)) -> is_authenticated (fst st) = true ->
        fst run = inl msg).
Proof.
  intros run.
  assert ((forall result, fst run = inr result -> send_result result)
          /\ (forall msg, fst run = inl msg -> slice_raises phone_number = Some msg))
    as [Hreturns Hraises].
  { subst run. unfold send_message_values, try_except.
    destruct (send_message_values_body_result e phone_number message st)
      as [_ Hbody].
    destruct (send_message_values_body e phone_number message st)
      as [[msg|result] st1]; cbn [fst].
    - unfold bind, log_phone.
      destruct (slice_raises phone_number) as [msg'|]; cbn [raise ret fst].
      + split; [discriminate|]. now intros ? [= <-].
      + split; [|discriminate]. intros ? [= <-]. right. eauto.
    - split; [|discriminate]. intros ? [= <-]. now apply Hbody. }
  split; [exact Hreturns|]. split; [exact Hraises|]. split.
  - intros Hslices. destruct (fst run) as [msg|result] eqn:Hrun.
    + specialize (Hraises msg eq_refl). congruence.
    + exists result. split; [reflexivity|]. now apply Hreturns.
  - intros msg Hslice [h Hdriver] Hauth. subst run.
    destruct st as [self o]. cbn [fst] in Hdriver, Hauth.
    unfold send_message_values, try_except, send_message_values_body,
      ensure_driver, ensure_authenticated, bind, get_self, ret.
    cbn [fst snd]. rewrite Hdriver. cbn [fst snd]. rewrite Hauth.
    unfold dispatch_values, bind, log_phone. rewrite Hslice.
    destruct (lift_sum (clean_phone_of phone_number) (self, o))
      as [[msg'|clean] st0]; reflexivity.
Qed.

Lemma send_message_result_shape_witness :
  let run := send_message_values all_fine (PyInt 9876543210) (PyStr "hello")
               ready in
  fst run = inl "'int' object is not subscriptable"
  /\ exists result,
       fst (send_message_values all_fine
              (PyList [PyStr "98765"; PyStr "43210"]) (PyStr "hello") ready)
       = inr result
       /\ send_result result.
Proof.
  split.
  - apply (send_message_result_shape all_fine (PyInt 9876543210) (PyStr "hello")
             ready); [reflexivity|vm_compute; eauto|vm_compute; reflexivity].
  - apply (send_message_result_shape all_fine
             (PyList [PyStr "98765"; PyStr "43210"]) (PyStr "hello") ready).
    reflexivity.
Defined.

(** *** A send that succeeds *)

Lemma ensure_authenticated_passes e st st' :
  ensure_authenticated e st = (inr None, st') ->
  is_authenticated (fst st') = true.
Proof.
  destruct st as [[did hl drv sd qrp auth url pd la] o].
  unfold ensure_authenticated, _check_authentication, wait_until, reinitialize,
    lift_total, bind, ret, raise, get_self, modify_self.
  simpl. destruct auth; simpl; [now intros [= <-]|].
  destruct drv as [h|]; simpl; [|discriminate].
  destruct (auth_recheck e); simpl; [now intros [= <-]| |discriminate].
  match goal with
  | |- context [Bot.initialize_session ?ie ?s] =>
      destruct (initialize_session_run ie s) as (Hok & _);
      destruct (Bot.initialize_session ie s) as [init_result st1]
  end.
  simpl in *.
  destruct (truthy (dict_get "success" init_result)); simpl; [|discriminate].
  intros [= <-]. now apply Hok.
Qed.

Ltac in_trace :=
  repeat first
    [ apply elem_of_app; right; apply list_elem_of_singleton; reflexivity
    | apply elem_of_app; left ].

Lemma dispatch_success e phone_number message media_path st st' :
  dispatch e phone_number message media_path st = (inr success_dict, st') ->
  fst st' = fst st
  /\ is_Some (driver (fst st))
  /\ EvGet ("https://web.whatsapp.com/send?phone="
            +:+ Phone.normalize_phone phone_number) ∈ trace (snd st')
  /\ (forall text, message = Some text -> str_nonempty text = true ->
        text_sent e = true /\ EvSendText text ∈ trace (snd st')).
Proof.
  destruct st as [[did hl drv sd qrp auth url pd la] o].
  unfold dispatch, driver_get, _wait_for_chat_to_load, wait_until, _send_media,
    _send_text_message, bind, ret, raise, get_self, get_os, modify_os, log.
  simpl. destruct drv as [h|]; simpl; [|discriminate].
  destruct (open_chat e); simpl; [discriminate|].
  destruct (chat_load e); simpl; try discriminate.
  destruct media_path as [path|]; simpl;
    [destruct (str_nonempty path && exists_path path _); simpl|];
    (destruct message as [text|]; simpl;
     [destruct (str_nonempty text) eqn:Hne; simpl;
      [destruct (text_sent e) eqn:Hsent; simpl; [|discriminate]|]|]);
    intros [= <-]; simpl;
    (split; [reflexivity|]); (split; [eauto|]); (split; [in_trace|]);
    intros text' [= <-] Hne'; try congruence;
    (split; [reflexivity|in_trace]).
Qed.

(** A send reports success only from a session that has a driver handle
    and is authenticated, after opening the chat of the normalised number;
    and if there was a text to send, only after the text step worked. *)
Theorem send_message_success e phone_number message media_path st :
  let run := Bot.send_message e phone_number message media_path st in
  fst run = success_dict ->
  is_authenticated (fst (snd run)) = true
  /\ is_Some (driver (fst (snd run)))
  /\ EvGet ("https://web.whatsapp.com/send?phone="
            +:+ Phone.normalize_phone phone_number) ∈ trace (snd (snd run))
  /\ (forall text, message = Some text -> str_nonempty text = true ->
        text_sent e = true /\ EvSendText text ∈ trace (snd (snd run))).
Proof.
  intros run. subst run.
  unfold Bot.send_message, run_total, send_message_body, bind, ret.
  pose proof (ensure_driver_failed e st) as [_ Hdriver].
  destruct (ensure_driver e st) as [[msg|[init_result|]] st1]; simpl.
  - discriminate.
  - intros ->. specialize (Hdriver _ eq_refl _ eq_refl). discriminate.
  - pose proof (ensure_authenticated_failed e st1) as [_ Hauth].
    pose proof (ensure_authenticated_passes e st1) as Hpass.
    destruct (ensure_authenticated e st1) as [[msg|[init_result|]] st2]; simpl.
    + discriminate.
    + intros ->. specialize (Hauth _ eq_refl _ eq_refl). discriminate.
    + specialize (Hpass st2 eq_refl).
      pose proof (dispatch_success e phone_number message media_path st2) as Hd.
      destruct (dispatch e phone_number message media_path st2)
        as [[msg|result] st3]; simpl; [discriminate|].
      intros ->. destruct (Hd st3 eq_refl) as (Hself & Hdrv & Hget & Htext).
      rewrite Hself. auto.
Qed.

Lemma send_message_success_witness :
  let run := Bot.send_message all_fine "+91 98765 43210" (Some "hello") None
               fresh in
  is_authenticated (fst (snd run)) = true
  /\ EvGet "https://web.whatsapp.com/send?phone=919876543210"
     ∈ trace (snd (snd run))
  /\ EvSendText "hello" ∈ trace (snd (snd run)).
Proof.
  destruct (send_message_success all_fine "+91 98765 43210" (Some "hello") None
              fresh) as (Hauth & _ & Hget & Htext); [vm_compute; reflexivity|].
  split; [exact Hauth|]. split; [exact Hget|].
  now apply (Htext "hello").
Defined.

(** *** No browser on the host *)

Lemma setup_driver_unavailable e st :
  _find_chrome_executable (which e) (snd st) = None
  \/ _find_chromedriver_executable (which e) (snd st) = None ->
  _setup_driver e st = (inr false, st).
Proof.
  destruct st as [self o]. simpl. intros Hmissing.
  unfold _setup_driver, try_except, bind, get_os, ret. simpl.
  destruct Hmissing as [-> | ->]; simpl; [reflexivity|].
  now destruct (truthy (of_option_str (_find_chrome_executable (which e) o))).
Qed.

(** When Chrome or ChromeDriver cannot be located, an initialization - and
    a send on a session that has no driver handle yet - returns
    [{success: False, error: 'Failed to setup WebDriver'}] and changes
    nothing: no directory is made, nothing is launched or logged. *)
Theorem driver_unavailable senv ienv phone_number message media_path st :
  (_find_chrome_executable (which ienv) (snd st) = None
   \/ _find_chromedriver_executable (which ienv) (snd st) = None ->
   Bot.initialize_session ienv st
   = (failure_dict "Failed to setup WebDriver", st))
  /\ (driver (fst st) = None ->
      _find_chrome_executable (which (init_first senv)) (snd st) = None
      \/ _find_chromedriver_executable (which (init_first senv)) (snd st) = None ->
      Bot.send_message senv phone_number message media_path st
      = (failure_dict "Failed to setup WebDriver", st)).
Proof.
  assert (forall e, _find_chrome_executable (which e) (snd st) = None
                    \/ _find_chromedriver_executable (which e) (snd st) = None ->
                    Bot.initialize_session e st
                    = (failure_dict "Failed to setup WebDriver", st)) as Hinit.
  { intros e Hmissing.
    unfold Bot.initialize_session, run_total, initialize_session_body, bind at 1.
    now rewrite (setup_driver_unavailable e st Hmissing). }
  split; [apply Hinit|].
  intros Hnone Hmissing.
  unfold Bot.send_message, run_total, send_message_body, ensure_driver,
    reinitialize, lift_total, bind, get_self, ret.
  simpl. rewrite Hnone, (Hinit _ Hmissing). reflexivity.
Qed.

Lemma driver_unavailable_witness :
  let st := Bot.__init__ "default" true None 100 empty_os in
  Bot.send_message all_fine "9876543210" (Some "hello") None st
  = (failure_dict "Failed to setup WebDriver", st)
  /\ Bot.initialize_session linked st
     = (failure_dict "Failed to setup WebDriver", st).
Proof.
  intros st. split.
  - apply (driver_unavailable all_fine linked); [reflexivity|].
    left. vm_compute. reflexivity.
  - apply (driver_unavailable all_fine linked "9876543210" None None).
    left. vm_compute. reflexivity.
Defined.

End Outcomes.

(** ** Locating the browser *)

Section Executables.
Import Py App Scenario.

Lemma first_existing_spec paths o :
  (forall path, first_existing paths o = Some path ->
     path ∈ paths /\ exists_path path o = true)
  /\ (first_existing paths o = None <->
      forall path, path ∈ paths -> exists_path path o = false).
Proof.
  unfold first_existing. split.
  - intros path Hfind. apply List.find_some in Hfind as [Hin Hex].
    split; [now apply list_elem_of_In|exact Hex].
  - split.
    + intros Hnone path Hin. apply list_elem_of_In in Hin.
      exact (List.find_none _ _ Hnone path Hin).
    + intros Hall. destruct (List.find _ paths) as [path|] eqn:Hfind;
        [|reflexivity].
      apply List.find_some in Hfind as [Hin Hex].
      apply list_elem_of_In in Hin. rewrite (Hall path Hin) in Hex. discriminate.
Qed.

(** What is found at a fixed path is the first path of the list that
    exists. *)
Lemma first_existing_first paths o path :
  first_existing paths o = Some path ->
  exists before after,
    paths = before ++ path :: after
    /\ exists_path path o = true
    /\ forall earlier, earlier ∈ before -> exists_path earlier o = false.
Proof.
  unfold first_existing. induction paths as [|p rest IH]; [discriminate|].
  simpl. destruct (exists_path p o) eqn:Hp.
  - intros [= <-]. exists [], rest. split; [reflexivity|]. split; [exact Hp|].
    intros earlier Hin. now apply elem_of_nil in Hin.
  - intros Hfind. destruct (IH Hfind) as (before & after & -> & Hex & Hnone).
    exists (p :: before), after. split; [reflexivity|]. split; [exact Hex|].
    intros earlier Hin. apply elem_of_cons in Hin as [->|Hin];
      [exact Hp|now apply Hnone].
Qed.

(** Chrome is looked for at five fixed paths, in order: what is found
    there is the first of them that exists. Only if none of them exists
    is it looked for on [PATH], under the names google-chrome,
    google-chrome-stable and chromium, in that order: a later name is
    used only when the earlier ones gave nothing. ChromeDriver is looked
    for at four fixed paths and then under the name chromedriver. Nothing
    is found exactly when all of these fail; what is found is never the
    empty string. *)
Theorem find_executables_spec (which : string -> option string) o :
  let chrome := _find_chrome_executable which o in
  let chromedriver := _find_chromedriver_executable which o in
  let on_path := fun name => truthy (of_option_str (which name)) in
  let first_of := fun (paths : list string) path =>
    exists before after,
      paths = before ++ path :: after
      /\ exists_path path o = true
      /\ forall earlier, earlier ∈ before -> exists_path earlier o = false in
  (chrome = None <->
     (forall path, path ∈ chrome_paths -> exists_path path o = false)
     /\ on_path "google-chrome" = false
     /\ on_path "google-chrome-stable" = false
     /\ on_path "chromium" = false)
  /\ (chromedriver = None <->
      (forall path, path ∈ chromedriver_paths -> exists_path path o = false)
      /\ on_path "chromedriver" = false)
  /\ (forall path, chrome = Some path ->
        str_nonempty path = true
        /\ (first_of chrome_paths path
            \/ ((forall fixed, fixed ∈ chrome_paths -> exists_path fixed o = false)
                /\ (which "google-chrome" = Some path
                    \/ (on_path "google-chrome" = false
                        /\ which "google-chrome-stable" = Some path)
                    \/ (on_path "google-chrome" = false
                        /\ on_path "google-chrome-stable" = false
                        /\ which "chromium" = Some path)))))
  /\ (forall path, chromedriver = Some path ->
        str_nonempty path = true
        /\ (first_of chromedriver_paths path
            \/ ((forall fixed, fixed ∈ chromedriver_paths ->
                   exists_path fixed o = false)
                /\ which "chromedriver" = Some path))).
Proof.
  intros chrome chromedriver on_path first_of.
  subst chrome chromedriver on_path first_of. cbv beta.
  unfold _find_chrome_executable, _find_chromedriver_executable, or_else.
  destruct (first_existing_spec chrome_paths o) as [Hsome Hnone].
  destruct (first_existing_spec chromedriver_paths o) as [Hsome' Hnone'].
  assert (forall path, path ∈ chrome_paths -> str_nonempty path = true) as Hne.
  { intros path Hin. unfold chrome_paths in Hin.
    repeat (apply elem_of_cons in Hin as [->|Hin]; [reflexivity|]).
    now apply elem_of_nil in Hin. }
  assert (forall path, path ∈ chromedriver_paths -> str_nonempty path = true)
    as Hne'.
  { intros path Hin. unfold chromedriver_paths in Hin.
    repeat (apply elem_of_cons in Hin as [->|Hin]; [reflexivity|]).
    now apply elem_of_nil in Hin. }
  split; [|split; [|split]].
  - destruct (first_existing chrome_paths o) as [fixed|] eqn:Hfixed.
    + split; [discriminate|]. intros [Hall _].
      destruct (Hsome fixed eq_refl) as [Hin Hex].
      rewrite (Hall fixed Hin) in Hex. discriminate.
    + pose proof (proj1 Hnone eq_refl) as Hall.
      destruct (which "google-chrome") as [[|c p]|]; simpl;
        destruct (which "google-chrome-stable") as [[|c' p']|]; simpl;
        destruct (which "chromium") as [[|c'' p'']|]; simpl;
        split; try discriminate; try (intros (_ & ? & ? & ?); discriminate);
        intros _; repeat split; exact Hall.
  - destruct (first_existing chromedriver_paths o) as [fixed|] eqn:Hfixed.
    + split; [discriminate|]. intros [Hall _].
      destruct (Hsome' fixed eq_refl) as [Hin Hex].
      rewrite (Hall fixed Hin) in Hex. discriminate.
    + pose proof (proj1 Hnone' eq_refl) as Hall.
      destruct (which "chromedriver") as [[|c p]|]; simpl;
        split; try discriminate; try (intros (_ & ?); discriminate);
        intros _; repeat split; exact Hall.
  - intros path.
    destruct (first_existing chrome_paths o) as [fixed|] eqn:Hfixed.
    + intros [= <-]. destruct (Hsome fixed eq_refl) as [Hin Hex].
      split; [now apply Hne|]. left. now apply first_existing_first.
    + pose proof (proj1 Hnone eq_refl) as Hall.
      destruct (which "google-chrome") as [[|c p]|]; simpl;
        destruct (which "google-chrome-stable") as [[|c' p']|]; simpl;
        destruct (which "chromium") as [[|c'' p'']|]; simpl;
        try discriminate; intros [= <-];
        (split; [reflexivity|]); right; (split; [exact Hall|]); tauto.
  - intros path.
    destruct (first_existing chromedriver_paths o) as [fixed|] eqn:Hfixed.
    + intros [= <-]. destruct (Hsome' fixed eq_refl) as [Hin Hex].
      split; [now apply Hne'|]. left. now apply first_existing_first.
    + pose proof (proj1 Hnone' eq_refl) as Hall.
      destruct (which "chromedriver") as [[|c p]|]; simpl;
        try discriminate; intros [= <-].
      split; [reflexivity|]. right. now split.
Qed.

Lemma find_executables_spec_witness :
  str_nonempty "/usr/bin/google-chrome" = true
  /\ _find_chromedriver_executable nowhere empty_os = None.
Proof.
  destruct (find_executables_spec nowhere (os (installed start)))
    as (_ & _ & Hchrome & _).
  destruct (find_executables_spec nowhere empty_os) as (_ & Hnone & _).
  split.
  - apply (Hchrome "/usr/bin/google-chrome"). vm_compute. reflexivity.
  - apply Hnone. split; [|reflexivity].
    intros path Hin. vm_compute. reflexivity.
Defined.

(** Two of the fixed paths exist and [which] knows a third place: the
    earlier fixed path wins. With no fixed path, the first name that
    [which] knows wins. *)
Lemma find_chrome_executable_order :
  let which_knows := fun name : string =>
    if String.eqb name "google-chrome-stable" then Some "/snap/bin/chrome"
    else if String.eqb name "chromium" then Some "/snap/bin/chromium"
    else None in
  let both := with_files {["/usr/bin/chromium"; "/usr/bin/google-chrome-stable"]}
                empty_os in
  _find_chrome_executable which_knows both = Some "/usr/bin/google-chrome-stable"
  /\ _find_chrome_executable which_knows empty_os = Some "/snap/bin/chrome".
Proof. vm_compute. split; reflexivity. Qed.

End Executables.

(** ** The profile directory *)

Section ProfileDir.
Import Py App Scenario.

Lemma blind_ret {A} (a : A) : blind (ret a).
Proof. intros p st. reflexivity. Qed.

Lemma blind_raise {A} (msg : string) : blind (@raise A msg).
Proof. intros p st. reflexivity. Qed.

Lemma blind_bind {A B} (m : M A) (k : A -> M B) :
  blind m -> (forall a, blind (k a)) -> blind (bind m k).
Proof.
  intros Hm Hk p st. unfold bind. rewrite Hm.
  destruct (m st) as [[msg|a] [self' o']]; simpl; [reflexivity|].
  apply (Hk a p (self', o')).
Qed.

Lemma blind_try_except {A} (m : M A) (h : string -> M A) :
  blind m -> (forall msg, blind (h msg)) -> blind (try_except m h).
Proof.
  intros Hm Hh p st. unfold try_except. rewrite Hm.
  destruct (m st) as [[msg|a] [self' o']]; simpl; [|reflexivity].
  apply (Hh msg p (self', o')).
Qed.

Lemma blind_get_self {B} (k : WhatsAppBot -> M B) :
  (forall self, blind (k self)) ->
  (forall p self, k (set_profile_dir p self) = k self) ->
  blind (bind get_self k).
Proof.
  intros Hk Hsame p st. unfold bind, get_self. simpl.
  rewrite Hsame. apply (Hk (fst st) p st).
Qed.

Lemma blind_get_os : blind get_os.
Proof. intros p st. reflexivity. Qed.

Lemma blind_modify_os (f : OS -> OS) : blind (modify_os f).
Proof. intros p st. reflexivity. Qed.

Lemma blind_modify_self (f : WhatsAppBot -> WhatsAppBot) :
  (forall p self, f (set_profile_dir p self) = set_profile_dir p (f self)) ->
  blind (modify_self f).
Proof. intros Hf p st. unfold modify_self. simpl. now rewrite Hf. Qed.

Lemma blind_lift_total {A} (f : state -> A * state) :
  (forall p st, f (set_profile_dir p (fst st), snd st)
                = (fst (f st), (set_profile_dir p (fst (snd (f st))),
                                snd (snd (f st))))) ->
  blind (lift_total f).
Proof.
  intros Hf p st. unfold lift_total. rewrite Hf.
  now destruct (f st) as [a [self' o']].
Qed.

Lemma blind_run_total {A} (m : M A) (h : string -> A) p st :
  blind m ->
  run_total m h (set_profile_dir p (fst st), snd st)
  = (fst (run_total m h st),
     (set_profile_dir p (fst (snd (run_total m h st))),
      snd (snd (run_total m h st)))).
Proof.
  intros Hm. unfold run_total. rewrite Hm.
  now destruct (m st) as [[msg|a] [self' o']].
Qed.

Ltac blind_step :=
  lazymatch goal with
  | |- blind (ret _) => apply blind_ret
  | |- blind (raise _) => apply blind_raise
  | |- blind (bind get_self _) =>
      apply blind_get_self; [intros ?|intros ? ?; reflexivity]
  | |- blind (bind _ _) => apply blind_bind; [|intros ?]
  | |- blind (try_except _ _) => apply blind_try_except; [|intros ?]
  | |- blind get_os => apply blind_get_os
  | |- blind (modify_os _) => apply blind_modify_os
  | |- blind (modify_self _) =>
      apply blind_modify_self; intros ? ?; reflexivity
  | |- blind (match ?x with _ => _ end) => destruct x
  end.

Lemma blind_wait_until poll : blind (wait_until poll).
Proof. unfold wait_until. repeat blind_step. Qed.

Lemma blind_check_authentication poll : blind (_check_authentication poll).
Proof.
  unfold _check_authentication. blind_step; [apply blind_wait_until|].
  repeat blind_step.
Qed.

Lemma blind_driver_get outcome url : blind (driver_get outcome url).
Proof. unfold driver_get. repeat blind_step. Qed.

Lemma blind_wait_for_authentication polls : blind (_wait_for_authentication polls).
Proof.
  unfold _wait_for_authentication. blind_step; [|blind_step].
  induction polls as [|poll rest IH]; simpl; [blind_step|].
  blind_step; [apply blind_check_authentication|].
  blind_step; [repeat blind_step|exact IH].
Qed.

Lemma blind_setup_driver e : blind (_setup_driver e).
Proof. unfold _setup_driver, launch_chrome. repeat blind_step. Qed.

Lemma blind_initialize_session_body e : blind (initialize_session_body e).
Proof.
  unfold initialize_session_body.
  blind_step; [apply blind_setup_driver|].
  blind_step; [blind_step|].
  blind_step.
  blind_step; [apply blind_driver_get|].
  blind_step; [apply blind_check_authentication|].
  blind_step; [blind_step|].
  blind_step; [apply blind_wait_until|].
  blind_step.
  - blind_step; [unfold _save_qr_code; repeat blind_step|].
    blind_step; [apply blind_wait_for_authentication|].
    repeat blind_step.
  - blind_step; [apply blind_check_authentication|].
    repeat blind_step.
Qed.

Lemma blind_reinitialize e : blind (reinitialize e).
Proof.
  unfold reinitialize. blind_step; [|repeat blind_step].
  apply blind_lift_total. intros p st.
  apply blind_run_total, blind_initialize_session_body.
Qed.

Lemma blind_send_message_body e phone_number message media_path :
  blind (send_message_body e phone_number message media_path).
Proof.
  unfold send_message_body, ensure_driver, ensure_authenticated.
  blind_step.
  { blind_step. blind_step; [blind_step|apply blind_reinitialize]. }
  blind_step; [blind_step|].
  blind_step.
  { blind_step. blind_step; [blind_step|].
    blind_step; [apply blind_check_authentication|].
    blind_step; [blind_step|apply blind_reinitialize]. }
  blind_step; [blind_step|].
  unfold dispatch.
  blind_step; [apply blind_driver_get|].
  blind_step; [apply blind_wait_until|].
  blind_step; [blind_step|].
  blind_step; [blind_step|].
  blind_step.
  - unfold _send_media. repeat blind_step.
  - unfold _send_text_message. repeat blind_step.
Qed.

Lemma blind_close_body e : blind (close_body e).
Proof. unfold close_body. repeat blind_step. Qed.

(** The constructor stores [profile_dir] and makes that directory; after
    that the attribute is never read: initializing, sending and closing
    run in exactly the same way - same
    result, same files, browsers and calls, same session apart from that
    one attribute - whatever [profile_dir] holds. *)
Theorem profile_dir_is_never_read senv ienv cenv phone_number message
    media_path p st :
  let st' := (set_profile_dir p (fst st), snd st) in
  let initialized := Bot.initialize_session ienv st in
  let sent := Bot.send_message senv phone_number message media_path st in
  let closed := Bot.close cenv st in
  Bot.initialize_session ienv st'
  = (fst initialized,
     (set_profile_dir p (fst (snd initialized)), snd (snd initialized)))
  /\ Bot.send_message senv phone_number message media_path st'
     = (fst sent, (set_profile_dir p (fst (snd sent)), snd (snd sent)))
  /\ Bot.close cenv st' = (set_profile_dir p (fst closed), snd closed).
Proof.
  intros st' initialized sent closed. subst st' initialized sent closed.
  split; [|split].
  - apply blind_run_total, blind_initialize_session_body.
  - apply blind_run_total, blind_send_message_body.
  - unfold Bot.close.
    now rewrite (blind_run_total _ _ p st (blind_close_body cenv)).
Qed.

End ProfileDir.

(** ** The initialize route *)

Section InitializeRoute.
Import Py App Scenario.



Lemma routes_leave_other_sessions_witness :
  let w' := snd (delete_session_handler quiet "a" two_sessions) in
  bot_instances w' !! "b" = bot_instances two_sessions !! "b"
  /\ heap w' !! 1%nat = Some session_b.
Proof.
  intros w'.
  destruct (routes_leave_other_sessions cfg all_fine linked quiet 0 "t" "a"
              (body_of "9876543210" "hello") two_sessions w')
    as [Hreg Hobj].
  { do 3 apply list_elem_of_further. apply list_elem_of_here. }
  split.
  - apply Hreg. discriminate.
  - apply Hobj; vm_compute; [reflexivity|discriminate].
Defined.

End InitializeRoute.
